(** * A shallow embedding of the to-do list task store (src/todo.py)

    The class [TodoApp] keeps a list of task dictionaries in memory, loads
    it from a JSON file when it is constructed and rewrites the whole file
    after every mutation.  The embedding follows the Python text method by
    method:

    - a task is a dictionary from field names to values, as [json.load]
      produces it and as the annotation [List[Dict[str, Any]]] declares it;
      field values are the JSON scalars (null, booleans, integers, strings).
      Floating point numbers and nested containers as field values are not
      represented;
    - a string is a text given by its UTF-8 bytes, so a text that UTF-8
      cannot encode (one with a lone surrogate) is not represented either,
      and the two streams are UTF-8 streams: [print] writes its line and
      returns.  The [UnicodeEncodeError] that [print] raises on a stream
      of a narrower encoding is outside the embedding, and no property
      below is stated of such a stream;
    - a method is a computation over the object and its operating system
      environment (files, standard output, standard error) that returns,
      raises a Python exception or leaves the process through [sys.exit];
    - the JSON codec, the clock and the success of file operations belong to
      the Python runtime, so they are parameters of the development. *)

From Stdlib Require Import ZArith Ascii.
From stdpp Require Import gmap strings list sorting fin_maps pretty.

Set Default Proof Using "Type".

Open Scope string_scope.
Open Scope list_scope.
Open Scope Z_scope.

(** ** Python values and their operators *)

Inductive value : Type :=
  | VNone
  | VBool (b : bool)
  | VInt (z : Z)
  | VStr (s : string).

Global Instance value_eq_dec : EqDecision value.
Proof. solve_decision. Defined.

(** A task: [Dict[str, Any]]. *)
Abbreviation task := (gmap string value).

(** The exceptions the program can meet.  [JSONDecodeError] and [IOError]
    carry the text that [str(e)] gives; [OtherError] stands for any other
    exception class the runtime may raise. *)
Inductive exn : Type :=
  | KeyError (key : string)
  | TypeError
  | JSONDecodeError (msg : string)
  | IOError (msg : string)
  | OtherError (msg : string).

(** How a call ends: normal return, an exception that nobody caught, or
    [sys.exit(code)]. *)
Inductive outcome (A : Type) : Type :=
  | Returned (a : A)
  | Raised (e : exn)
  | Exited (code : Z).
Arguments Returned {A} a.
Arguments Raised {A} e.
Arguments Exited {A} code.

Global Instance exn_eq_dec : EqDecision exn.
Proof. solve_decision. Defined.
Global Instance outcome_eq_dec `{EqDecision A} : EqDecision (outcome A).
Proof. solve_decision. Defined.

Global Instance outcome_ret : MRet outcome := fun A a => Returned a.
Global Instance outcome_bind : MBind outcome := fun A B f m =>
  match m with
  | Returned a => f a
  | Raised e => Raised e
  | Exited c => Exited c
  end.

(** [bool] is a subclass of [int]: [True] counts as 1 and [False] as 0. *)
Definition as_int (v : value) : option Z :=
  match v with
  | VInt z => Some z
  | VBool b => Some (Z.b2z b)
  | _ => None
  end.

(** [t[key]] *)
Definition getitem (t : task) (key : string) : outcome value :=
  match t !! key with
  | Some v => Returned v
  | None => Raised (KeyError key)
  end.

(** [t.get(key, dflt)] *)
Definition get (t : task) (key : string) (dflt : value) : value :=
  default dflt (t !! key).

(** [bool(v)], the truth value used by [if] and [not]. *)
Definition truthy (v : value) : bool :=
  match v with
  | VNone => false
  | VBool b => b
  | VInt z => negb (z =? 0)
  | VStr s => negb (String.eqb s "")
  end.

(** [v == n] for an integer [n]. *)
Definition py_eq_int (v : value) (n : Z) : bool :=
  match as_int v with
  | Some z => z =? n
  | None => false
  end.

(** [v != n] for an integer [n]. *)
Definition py_ne_int (v : value) (n : Z) : bool := negb (py_eq_int v n).

(** [a > b]: defined between numbers and between strings. *)
Definition py_gt (a b : value) : outcome bool :=
  match as_int a, as_int b with
  | Some x, Some y => Returned (y <? x)
  | _, _ =>
      match a, b with
      | VStr s, VStr u => Returned (String.ltb u s)
      | _, _ => Raised TypeError
      end
  end.

(** [v + 1] *)
Definition py_add1 (v : value) : outcome value :=
  match as_int v with
  | Some z => Returned (VInt (z + 1))
  | None => Raised TypeError
  end.

(** [str(v)], which is also what an f-string field [{v}] renders. *)
Definition py_str (v : value) : string :=
  match v with
  | VNone => "None"
  | VBool true => "True"
  | VBool false => "False"
  | VInt z => pretty z
  | VStr s => s
  end.

(** [max(it, default=0)] over the values an iteration yields.  The builtin
    keeps the first of equal maxima and replaces the running maximum only
    when the next item is strictly greater. *)
Fixpoint max_from (cur : value) (ts : list task) : outcome value :=
  match ts with
  | [] => Returned cur
  | t :: rest =>
      v ← getitem t "id";
      b ← py_gt v cur;
      max_from (if b : bool then v else cur) rest
  end.

Definition max_id (ts : list task) : outcome value :=
  match ts with
  | [] => Returned (VInt 0)
  | t :: rest => v ← getitem t "id"; max_from v rest
  end.

(** [task["id"] == task_id] *)
Definition id_is (task_id : Z) (t : task) : outcome bool :=
  v ← getitem t "id"; mret (py_eq_int v task_id).

(** [[t for t in ts if t["id"] != task_id]] *)
Fixpoint keep_others (task_id : Z) (ts : list task) : outcome (list task) :=
  match ts with
  | [] => Returned []
  | t :: rest =>
      v ← getitem t "id";
      rest' ← keep_others task_id rest;
      mret (if py_ne_int v task_id then t :: rest' else rest')
  end.

(** [s * n] for a string [s]. *)
Fixpoint str_mul (s : string) (n : nat) : string :=
  match n with
  | O => ""
  | S n' => s +:+ str_mul s n'
  end.

(** [not t.get("completed", False)] *)
Definition incomplete (t : task) : bool :=
  negb (truthy (get t "completed" (VBool false))).

(** The local variable [tasks_to_show] of [list_tasks]. *)
Definition tasks_to_show (show_completed : bool) (ts : list task) : list task :=
  if negb show_completed then filter (λ t, incomplete t = true) ts else ts.

(** The dictionary literal of [add_task]. *)
Definition new_task (next_id : value) (title description created_at : string) : task :=
  <[ "id" := next_id ]>
  (<[ "title" := VStr title ]>
  (<[ "description" := VStr description ]>
  (<[ "completed" := VBool false ]>
  (<[ "created_at" := VStr created_at ]> ∅)))).

(** ** Vocabulary of the properties *)

(** The integer a task carries as its id, if it carries one. *)
Definition int_id (t : task) : option Z := t !! "id" ≫= as_int.

(** The ids of a store all of whose tasks carry an integer id. *)
Definition ids (ts : list task) : option (list Z) := mapM int_id ts.

(** [max(zs, default=d)] on integers. *)
Definition max_default (d : Z) (zs : list Z) : Z :=
  match zs with
  | [] => d
  | z :: rest => foldl Z.max z rest
  end.

(** The task carries the id [n], or carries another id. *)
Definition same_id (n : Z) (t : task) : Prop := id_is n t = Returned true.
Definition other_id (n : Z) (t : task) : Prop := id_is n t = Returned false.

Global Instance same_id_dec n t : Decision (same_id n t).
Proof. unfold same_id. apply _. Defined.
Global Instance other_id_dec n t : Decision (other_id n t).
Proof. unfold other_id. apply _. Defined.

(** The task has an ["id"] key, whatever it holds. *)
Definition carries_id (t : task) : Prop := is_Some (t !! "id").

(** All tasks carry an integer id and no two carry the same. *)
Definition distinct_ids (ts : list task) : Prop :=
  ∃ zs, ids ts = Some zs ∧ NoDup zs.

(** A small codec that instantiates the runtime parameters in the
    examples: a file holds either a dumped task list or text that is not
    JSON. *)
Definition sample_dump (ts : list task) : option (list task) := Some ts.
Definition sample_load (c : option (list task)) : outcome (list task) :=
  match c with
  | Some ts => Returned ts
  | None => Raised (JSONDecodeError "Expecting value: line 1 column 1 (char 0)")
  end.

(** The three tasks of the test fixture [app_with_tasks], and a pair of
    tasks that share an id, as a hand-edited file can hold. *)
Definition groceries : task :=
  new_task (VInt 1) "Buy groceries" "Milk, eggs, bread" "2024-05-01T09:00:00.000001".
Definition project : task :=
  new_task (VInt 2) "Complete project" "" "2024-05-01T09:00:00.000002".
Definition review : task :=
  new_task (VInt 3) "Review pull requests" "Check team PRs" "2024-05-01T09:00:00.000003".
Definition three_tasks : list task := [groceries; project; review].
Definition done_groceries : task := <[ "completed" := VBool true ]> groceries.
Definition twin : task := {[ "id" := VInt 1; "title" := VStr "Twin" ]}.
Definition twin_tasks : list task := [groceries; project; twin].

(** A task without an id and a task without a title, as a hand-edited file
    can hold, and a codec whose reader meets bytes it cannot decode as
    text, an exception that is neither [JSONDecodeError] nor [IOError]. *)
Definition nameless : task := {[ "title" := VStr "No id" ]}.
Definition untitled : task := {[ "id" := VInt 7 ]}.
Definition bytes_load (c : option (list task)) : outcome (list task) :=
  match c with
  | Some ts => Returned ts
  | None => Raised (OtherError "'utf-8' codec can't decode byte 0xff")
  end.



(** ** The object, its environment and the methods *)

Section TodoApp.

(** What a file holds, and the JSON codec of the runtime: [json_dump ts] is
    the text [json.dump(ts, f, indent=2)] writes, [json_load c] is what
    [json.load(f)] does on a file holding [c]. *)
Variable content : Type.
Variable json_dump : list task → content.
Variable json_load : content → outcome (list task).

(** The instance attributes. *)
Record TodoApp : Type := {
  tasks_file : string;
  tasks : list task
}.

(** The part of the operating system the program touches: the files by path
    and the lines printed so far on the two streams. *)
Record sys : Type := {
  fs : gmap string content;
  stdout : list string;
  stderr : list string
}.

Record state : Type := {
  self : TodoApp;
  os : sys
}.

(** What the runtime decides during one call: the clock, and whether the
    file can be read and written.  A failed write leaves [snd] of the fault
    at the path. *)
Record env : Type := {
  now_isoformat : string;
  read_error : option string;
  write_error : option (string * option content)
}.

Definition M (A : Type) : Type := state → outcome A * state.

Global Instance M_ret : MRet M := λ A a st, (Returned a, st).
Global Instance M_bind : MBind M := λ A B f m st,
  match m st with
  | (Returned a, st') => f a st'
  | (Raised e, st') => (Raised e, st')
  | (Exited c, st') => (Exited c, st')
  end.

Definition lift {A} (o : outcome A) : M A := λ st, (o, st).
Definition raise {A} (e : exn) : M A := lift (Raised e).
Definition sys_exit {A} (code : Z) : M A := lift (Exited code).

Definition gets {A} (f : state → A) : M A := λ st, (Returned (f st), st).

(** State updates: assignment to [self.tasks], replacement of the file at a
    path, and a line added to a stream. *)
Definition put_tasks (ts : list task) (st : state) : state :=
  {| self := {| tasks_file := tasks_file (self st); tasks := ts |};
     os := os st |}.

Definition put_file (path : string) (c : option content) (st : state) : state :=
  {| self := self st;
     os := {| fs := partial_alter (λ _, c) path (fs (os st));
              stdout := stdout (os st);
              stderr := stderr (os st) |} |}.

Definition out_line (line : string) (st : state) : state :=
  {| self := self st;
     os := {| fs := fs (os st);
              stdout := stdout (os st) ++ [line];
              stderr := stderr (os st) |} |}.

Definition err_line (line : string) (st : state) : state :=
  {| self := self st;
     os := {| fs := fs (os st);
              stdout := stdout (os st);
              stderr := stderr (os st) ++ [line] |} |}.

Definition set_tasks (ts : list task) : M unit := λ st, (Returned (), put_tasks ts st).
Definition set_file (path : string) (c : option content) : M unit :=
  λ st, (Returned (), put_file path c st).

(** [print(line)] and [print(line, file=sys.stderr)], on streams that can
    encode the line (streams in UTF-8, lines given by their UTF-8 bytes):
    the line is written and the call returns. *)
Definition print (line : string) : M unit := λ st, (Returned (), out_line line st).
Definition eprint (line : string) : M unit := λ st, (Returned (), err_line line st).

(** [try: body except ...: handler]: the handler says which exceptions it
    takes. *)
Definition try_except {A} (body : M A) (handler : exn → option (M A)) : M A :=
  λ st,
  match body st with
  | (Raised ex, st') =>
      match handler ex with
      | Some h => h st'
      | None => (Raised ex, st')
      end
  | r => r
  end.

(** [for x in xs: body(x)] *)
Fixpoint for_each {A} (xs : list A) (body : A → M unit) : M unit :=
  match xs with
  | [] => mret ()
  | x :: rest => body x;; for_each rest body
  end.

(** [with open(self.tasks_file, "r") as f: return json.load(f)] *)
Definition read_json (e : env) : M (list task) :=
  path ← gets (λ st, tasks_file (self st));
  file ← gets (λ st, fs (os st) !! path);
  match read_error e, file with
  | Some msg, _ => raise (IOError msg)
  | None, None => raise (IOError "No such file or directory")
  | None, Some c => lift (json_load c)
  end.

Definition _load_tasks (e : env) : M (list task) :=
  path ← gets (λ st, tasks_file (self st));
  file ← gets (λ st, fs (os st) !! path);
  if file is Some _ then
    try_except (read_json e)
      (λ ex, match ex with
             | JSONDecodeError msg | IOError msg =>
                 Some (eprint ("Error loading tasks: " +:+ msg);; mret [])
             | _ => None
             end)
  else mret [].

(** [TodoApp(tasks_file)]: the object under construction carries its path
    while [_load_tasks] runs; its task list is set from the result. *)
Definition __init__ (e : env) (path : string) (o : sys) : outcome TodoApp * sys :=
  let st0 := {| self := {| tasks_file := path; tasks := [] |}; os := o |} in
  match _load_tasks e st0 with
  | (Returned ts, st) => (Returned {| tasks_file := path; tasks := ts |}, os st)
  | (Raised ex, st) => (Raised ex, os st)
  | (Exited c, st) => (Exited c, os st)
  end.

(** [with open(self.tasks_file, "w") as f: json.dump(self.tasks, f, indent=2)] *)
Definition write_json (e : env) : M unit :=
  path ← gets (λ st, tasks_file (self st));
  ts ← gets (λ st, tasks (self st));
  match write_error e with
  | Some (msg, remains) => set_file path remains;; raise (IOError msg)
  | None => set_file path (Some (json_dump ts))
  end.

Definition _save_tasks (e : env) : M unit :=
  try_except (write_json e)
    (λ ex, match ex with
           | IOError msg =>
               Some (eprint ("Error saving tasks: " +:+ msg);; sys_exit 1)
           | _ => None
           end).

Definition add_task (e : env) (title description : string) : M unit :=
  ts ← gets (λ st, tasks (self st));
  m ← lift (max_id ts);
  next_id ← lift (py_add1 m);
  let task := new_task next_id title description (now_isoformat e) in
  set_tasks (ts ++ [task]);;
  _save_tasks e;;
  print ("✓ Task added: " +:+ title).

(** The body of the loop of [list_tasks]. *)
Definition show_task (t : task) : M unit :=
  let status := if truthy (get t "completed" (VBool false)) then "✓" else "○" in
  i ← lift (getitem t "id");
  ti ← lift (getitem t "title");
  print (status +:+ " [" +:+ py_str i +:+ "] " +:+ py_str ti);;
  if truthy (get t "description" VNone) then
    d ← lift (getitem t "description");
    print ("    └─ " +:+ py_str d)
  else mret ().

Definition list_header : string := String "010"%char "📋 To-Do List:".

Definition list_tasks (show_completed : bool) : M unit :=
  ts ← gets (λ st, tasks (self st));
  if ts is [] then print "No tasks found."
  else
    let shown := tasks_to_show show_completed ts in
    if shown is [] then print "No incomplete tasks found."
    else
      print list_header;;
      print (str_mul "-" 60);;
      for_each shown show_task;;
      print (str_mul "-" 60).

(** The loop of [complete_task], at position [i] with [rest] still to
    visit.  The matching dictionary is updated in place. *)
Fixpoint complete_scan (e : env) (task_id : Z) (i : nat) (rest : list task) : M unit :=
  match rest with
  | [] => print ("Task " +:+ pretty task_id +:+ " not found.")
  | t :: rest' =>
      found ← lift (id_is task_id t);
      if found : bool then
        ts ← gets (λ st, tasks (self st));
        set_tasks (alter (<[ "completed" := VBool true ]>) i ts);;
        _save_tasks e;;
        print ("✓ Task " +:+ pretty task_id +:+ " marked as completed.")
      else complete_scan e task_id (S i) rest'
  end.

Definition complete_task (e : env) (task_id : Z) : M unit :=
  ts ← gets (λ st, tasks (self st));
  complete_scan e task_id 0 ts.

Definition delete_task (e : env) (task_id : Z) : M unit :=
  ts ← gets (λ st, tasks (self st));
  let original_length := length ts in
  ts' ← lift (keep_others task_id ts);
  set_tasks ts';;
  if bool_decide (length ts' < original_length)%nat then
    _save_tasks e;;
    print ("✓ Task " +:+ pretty task_id +:+ " deleted.")
  else print ("Task " +:+ pretty task_id +:+ " not found.").


(** ** Callers and vocabulary over states *)

(** The mutating calls a caller can make, and a caller that makes several
    in a row, each under what the runtime decides at that moment.  An
    uncaught exception or [sys.exit] ends the run. *)
Inductive mutation : Type :=
  | Add (title description : string)
  | Complete (task_id : Z)
  | Delete (task_id : Z).

Definition run_mutation (e : env) (c : mutation) : M unit :=
  match c with
  | Add title description => add_task e title description
  | Complete task_id => complete_task e task_id
  | Delete task_id => delete_task e task_id
  end.

Fixpoint run_mutations (cs : list (env * mutation)) : M unit :=
  match cs with
  | [] => mret ()
  | (e, c) :: rest => run_mutation e c;; run_mutations rest
  end.

Definition is_add (c : mutation) : Prop :=
  match c with
  | Add _ _ => True
  | _ => False
  end.

(** Several lines added to standard output. *)
Definition out_lines (lines : list string) (st : state) : state :=
  {| self := self st;
     os := {| fs := fs (os st);
              stdout := stdout (os st) ++ lines;
              stderr := stderr (os st) |} |}.

(** The lines a listing shows for one task, in the words of the
    specification: a completion marker, the id in brackets and the title,
    then the description on an indented line when it is not empty. *)
Definition task_lines (t : task) : list string :=
  ((if truthy (get t "completed" (VBool false)) then "✓" else "○")
     +:+ " [" +:+ py_str (get t "id" VNone) +:+ "] "
     +:+ py_str (get t "title" VNone))
  :: (if truthy (get t "description" VNone)
      then ["    └─ " +:+ py_str (get t "description" VNone)]
      else []).

(** The object is what a construction from its own path would load,
    whenever the file can be read. *)
Definition synced (st : state) : Prop :=
  ∀ e, read_error e = None →
    fst (__init__ e (tasks_file (self st)) (os st)) = Returned (self st).

(** A call left the object and the files as they were. *)
Definition same_store (st st' : state) : Prop :=
  self st' = self st ∧ fs (os st') = fs (os st) ∧
  stderr (os st') = stderr (os st).

(** A runtime in which reading and writing work, a system with no file
    and nothing printed, and an object with given attributes on it. *)
Definition quiet_env (now : string) : env :=
  {| now_isoformat := now; read_error := None; write_error := None |}.

Definition no_files : sys := {| fs := ∅; stdout := []; stderr := [] |}.

Definition store (path : string) (ts : list task) (o : sys) : state :=
  {| self := {| tasks_file := path; tasks := ts |}; os := o |}.

(** A computation that only reads the object and the files. *)
Definition reads_only {A} (m : M A) : Prop :=
  ∀ st, same_store st (snd (m st)).

(** The task has what a listing line needs. *)
Definition listable (t : task) : Prop :=
  is_Some (t !! "id") ∧ is_Some (t !! "title").

(** ** The command line *)

(** What [parser.parse_args()] hands to [main]: the [--tasks-file] option,
    the name of the subcommand ([None] when the command line names none)
    and the arguments of the subcommands.  [main] reads an argument only in
    the branch of the subcommand that defines it. *)
Record namespace : Type := {
  args_tasks_file : string;
  args_command : option string;
  args_title : string;
  args_description : string;
  args_all : bool;
  args_id : Z
}.

(** The [if]/[elif] chain of [main], on the object [main] constructed;
    [help] is the text [parser.print_help()] writes. *)
Definition handle_command (e : env) (help : string) (args : namespace) : M unit :=
  if decide (args_command args = Some "add") then
    add_task e (args_title args) (args_description args)
  else if decide (args_command args = Some "list") then
    list_tasks (args_all args)
  else if decide (args_command args = Some "complete") then
    complete_task e (args_id args)
  else if decide (args_command args = Some "delete") then
    delete_task e (args_id args)
  else print help.

(** [main()] from the parsed arguments on: construct the object, then
    handle the command. *)
Definition main (e : env) (help : string) (args : namespace) (o : sys)
  : outcome unit * sys :=
  match __init__ e (args_tasks_file args) o with
  | (Returned app, o1) =>
      let r := handle_command e help args {| self := app; os := o1 |} in
      (fst r, os (snd r))
  | (Raised ex, o1) => (Raised ex, o1)
  | (Exited c, o1) => (Exited c, o1)
  end.

(** A script: one process per line, each under its own runtime, stopped at
    the first process that does not end normally. *)
Fixpoint run_script (help : string) (script : list (env * namespace)) (o : sys)
  : outcome unit * sys :=
  match script with
  | [] => (Returned (), o)
  | (e, args) :: rest =>
      match main e help args o with
      | (Returned _, o1) => run_script help rest o1
      | r => r
      end
  end.

(** The same commands handled one after the other on a single object. *)
Definition run_commands (help : string) (script : list (env * namespace)) : M unit :=
  for_each script (λ ea, handle_command ea.1 help ea.2).

(** ** Further vocabulary *)

(** The line a mutating call reports success with, the line that says an
    id was not found, and the id a call looks for. *)
Definition success_line (c : mutation) : string :=
  match c with
  | Add title _ => "✓ Task added: " +:+ title
  | Complete task_id => "✓ Task " +:+ pretty task_id +:+ " marked as completed."
  | Delete task_id => "✓ Task " +:+ pretty task_id +:+ " deleted."
  end.

Definition not_found_line (task_id : Z) : string :=
  "Task " +:+ pretty task_id +:+ " not found.".

Definition target (c : mutation) : option Z :=
  match c with
  | Add _ _ => None
  | Complete task_id | Delete task_id => Some task_id
  end.


(** [t'] is [t], as it was or marked completed. *)
Definition marked (t t' : task) : Prop :=
  t' = t ∨ t' = <[ "completed" := VBool true ]> t.

(** Two states that differ at most in what standard error shows, and a
    computation whose outcome, object, files and standard output do not
    depend on what standard error showed. *)
Definition same_but_stderr (st st' : state) : Prop :=
  self st = self st' ∧ fs (os st) = fs (os st') ∧
  stdout (os st) = stdout (os st').

Definition stderr_blind {A} (m : M A) : Prop :=
  ∀ st st', same_but_stderr st st' →
    fst (m st) = fst (m st') ∧ same_but_stderr (snd (m st)) (snd (m st')).

(** ** Running the primitive actions *)

Lemma _save_tasks_ok e st :
  write_error e = None →
  _save_tasks e st =
    (Returned (),
     put_file (tasks_file (self st)) (Some (json_dump (tasks (self st)))) st).
Proof.
  intros Hw. unfold _save_tasks, try_except, write_json.
  unfold mbind, M_bind, gets. by rewrite Hw.
Qed.

Lemma _save_tasks_fault e st msg remains :
  write_error e = Some (msg, remains) →
  _save_tasks e st =
    (Exited 1,
     err_line ("Error saving tasks: " +:+ msg)
       (put_file (tasks_file (self st)) remains st)).
Proof.
  intros Hw. unfold _save_tasks, try_except, write_json.
  unfold mbind, M_bind, gets. by rewrite Hw.
Qed.

(** ** Ids and their maximum *)

Lemma ids_cons_Some t ts zs :
  ids (t :: ts) = Some zs ↔
  ∃ z zs', int_id t = Some z ∧ ids ts = Some zs' ∧ zs = z :: zs'.
Proof.
  unfold ids. cbn. split.
  - destruct (int_id t) as [z|]; cbn; [|done].
    destruct (mapM int_id ts) as [zs'|]; cbn; [|done].
    intros [= <-]. eauto.
  - intros (z & zs' & -> & -> & ->). done.
Qed.

Lemma ids_app_Some ts us zs ws :
  ids ts = Some zs → ids us = Some ws → ids (ts ++ us) = Some (zs ++ ws).
Proof.
  revert zs. induction ts as [|t ts IH]; intros zs.
  - intros [= <-]. done.
  - intros (z & zs' & Hz & Hzs & ->)%ids_cons_Some Hus.
    apply ids_cons_Some. exists z, (zs' ++ ws). eauto.
Qed.

Lemma int_id_getitem t z :
  int_id t = Some z → ∃ v, getitem t "id" = Returned v ∧ as_int v = Some z.
Proof.
  unfold int_id, getitem. destruct (t !! "id") as [v|]; cbn; [|done]. eauto.
Qed.

Lemma int_id_id_is n t z : int_id t = Some z → id_is n t = Returned (z =? n).
Proof.
  intros (v & Hv & Hz)%int_id_getitem.
  unfold id_is, py_eq_int. rewrite Hv. cbn. by rewrite Hz.
Qed.

Lemma max_from_ints ts : ∀ cur c zs,
  as_int cur = Some c → ids ts = Some zs →
  ∃ v, max_from cur ts = Returned v ∧ as_int v = Some (foldl Z.max c zs).
Proof.
  induction ts as [|t ts IH]; intros cur c zs Hc.
  - intros [= <-]. cbn. eauto.
  - intros (z & zs' & Hz & Hzs & ->)%ids_cons_Some.
    destruct (int_id_getitem _ _ Hz) as (v & Hv & Hvz).
    cbn. rewrite Hv. cbn. unfold py_gt. rewrite Hvz, Hc. cbn.
    destruct (Z.ltb_spec c z) as [Hlt|Hge].
    + replace (Z.max c z) with z by lia. by apply IH.
    + replace (Z.max c z) with c by lia. by apply IH.
Qed.

Lemma max_id_ints ts zs :
  ids ts = Some zs →
  ∃ v, max_id ts = Returned v ∧ as_int v = Some (max_default 0 zs).
Proof.
  destruct ts as [|t ts].
  - intros [= <-]. cbn. eauto.
  - intros (z & zs' & Hz & Hzs & ->)%ids_cons_Some.
    destruct (int_id_getitem _ _ Hz) as (v & Hv & Hvz).
    cbn. rewrite Hv. cbn. by apply max_from_ints.
Qed.

Lemma foldl_max_ge (zs : list Z) : ∀ c, c ≤ foldl Z.max c zs.
Proof.
  induction zs as [|z zs IH]; intros c; cbn; [lia|].
  specialize (IH (Z.max c z)). lia.
Qed.

Lemma foldl_max_bound (zs : list Z) : ∀ c, Forall (λ z, z ≤ foldl Z.max c zs) zs.
Proof.
  induction zs as [|z zs IH]; intros c; cbn; [done|].
  constructor; [|apply IH].
  pose proof (foldl_max_ge zs (Z.max c z)). lia.
Qed.

Lemma max_default_bound d zs : Forall (λ z, z ≤ max_default d zs) zs.
Proof.
  destruct zs as [|z zs]; [done|]. cbn. constructor.
  - apply foldl_max_ge.
  - apply foldl_max_bound.
Qed.

(** The maximum of a non-empty list is one of its elements. *)
Lemma foldl_max_elem (zs : list Z) : ∀ c,
  foldl Z.max c zs = c ∨ foldl Z.max c zs ∈ zs.
Proof.
  induction zs as [|z zs IH]; intros c; cbn; [by left|].
  destruct (IH (Z.max c z)) as [->|Hin].
  - destruct (Z.max_spec c z) as [[_ ->]|[_ ->]]; [right; left|by left].
  - right. by right.
Qed.

Lemma max_default_elem d zs : zs ≠ [] → max_default d zs ∈ zs.
Proof.
  destruct zs as [|z zs]; [done|]. intros _. cbn.
  destruct (foldl_max_elem zs z) as [->|Hin]; [left|by right].
Qed.

(** ** The scans of [complete_task] and [delete_task] *)

Lemma carries_id_cases n t : carries_id t ↔ same_id n t ∨ other_id n t.
Proof.
  unfold carries_id, same_id, other_id, id_is, getitem. split.
  - intros [v ->]. cbn. destruct (py_eq_int v n); auto.
  - destruct (t !! "id"); [eauto|]. cbn. by intros [?|?].
Qed.

Lemma same_other_id n t : same_id n t → other_id n t → False.
Proof. unfold same_id, other_id. congruence. Qed.

Lemma other_id_carries n t : other_id n t → carries_id t.
Proof. intros. apply (carries_id_cases n). auto. Qed.

Lemma same_id_carries n t : same_id n t → carries_id t.
Proof. intros. apply (carries_id_cases n). auto. Qed.

Lemma keep_others_filter n ts :
  Forall carries_id ts →
  keep_others n ts = Returned (filter (other_id n) ts).
Proof.
  induction 1 as [|t ts [v Hv] _ IH]; [done|].
  rewrite filter_cons. cbn [keep_others]. unfold getitem. rewrite Hv, IH.
  unfold py_ne_int.
  destruct (decide (other_id n t)) as [Ho|Ho];
    unfold other_id, id_is, getitem in Ho; rewrite Hv in Ho; cbn in Ho;
    cbn; unfold mret, outcome_ret in *;
    destruct (py_eq_int v n); cbn; congruence.
Qed.

(** A task without an id stops the comprehension with [KeyError]. *)
Lemma keep_others_key_error n ts :
  ¬ Forall carries_id ts → keep_others n ts = Raised (KeyError "id").
Proof.
  induction ts as [|t ts IH]; intros Hn.
  - destruct Hn. constructor.
  - cbn. unfold getitem. destruct (t !! "id") as [v|] eqn:Hv; [|done].
    cbn. rewrite IH; [done|].
    intros H. apply Hn. constructor; [by exists v|done].
Qed.

Lemma filter_other_id_all n ts :
  Forall (other_id n) ts → filter (other_id n) ts = ts.
Proof.
  induction 1 as [|t ts Ht _ IH]; [done|].
  by rewrite filter_cons_True, IH.
Qed.

Lemma filter_other_id_shorter n ts :
  Exists (same_id n) ts →
  (length (filter (other_id n) ts) < length ts)%nat.
Proof.
  induction 1 as [t ts Ht|t ts _ IH].
  - rewrite filter_cons_False by (intros ?; by eapply same_other_id).
    pose proof (length_filter (other_id n) ts). cbn. lia.
  - destruct (decide (other_id n t)).
    + rewrite filter_cons_True by done. cbn. lia.
    + rewrite filter_cons_False by done. cbn. lia.
Qed.

(** ** What each method computes *)

Lemma add_task_run e title description st zs :
  ids (tasks (self st)) = Some zs →
  add_task e title description st =
    (_save_tasks e;; print ("✓ Task added: " +:+ title))
      (put_tasks
         (tasks (self st) ++
            [new_task (VInt (max_default 0 zs + 1)) title description
               (now_isoformat e)]) st).
Proof.
  intros Hids. destruct (max_id_ints _ _ Hids) as (m & Hm & Hmz).
  unfold add_task. unfold mbind at 1, M_bind at 1, gets at 1. cbn beta iota.
  unfold mbind at 1, M_bind at 1, lift at 1. rewrite Hm. cbn beta iota.
  unfold mbind at 1, M_bind at 1, lift at 1, py_add1. rewrite Hmz.
  cbn beta iota. reflexivity.
Qed.

Lemma delete_task_run e n st :
  Forall carries_id (tasks (self st)) →
  delete_task e n st =
    (if bool_decide
          (length (filter (other_id n) (tasks (self st)))
           < length (tasks (self st)))%nat
     then _save_tasks e;; print ("✓ Task " +:+ pretty n +:+ " deleted.")
     else print ("Task " +:+ pretty n +:+ " not found."))
      (put_tasks (filter (other_id n) (tasks (self st))) st).
Proof.
  intros Hall. unfold delete_task.
  unfold mbind at 1, M_bind at 1, gets at 1. cbn beta iota.
  unfold mbind at 1, M_bind at 1, lift at 1.
  rewrite (keep_others_filter _ _ Hall). cbn beta iota. reflexivity.
Qed.

(** A task without an id makes [delete_task] raise before it assigns. *)
Lemma delete_task_key_error e n st :
  ¬ Forall carries_id (tasks (self st)) →
  delete_task e n st = (Raised (KeyError "id"), st).
Proof.
  intros Hn. unfold delete_task.
  unfold mbind at 1, M_bind at 1, gets at 1. cbn beta iota.
  unfold mbind at 1, M_bind at 1, lift at 1.
  by rewrite (keep_others_key_error _ _ Hn).
Qed.

Lemma complete_scan_absent e n rest : ∀ i st,
  Forall (other_id n) rest →
  complete_scan e n i rest st =
    (Returned (), out_line ("Task " +:+ pretty n +:+ " not found.") st).
Proof.
  induction rest as [|t rest IH]; intros i st Hall; [done|].
  apply Forall_cons in Hall as [Ht Hrest].
  cbn [complete_scan]. unfold mbind at 1, M_bind at 1, lift at 1.
  rewrite Ht. by apply IH.
Qed.

Lemma complete_scan_found e n pre t post : ∀ i st,
  Forall (other_id n) pre → same_id n t →
  complete_scan e n i (pre ++ t :: post) st =
    (_save_tasks e;;
     print ("✓ Task " +:+ pretty n +:+ " marked as completed."))
      (put_tasks
         (alter (<[ "completed" := VBool true ]>) (i + length pre)%nat
            (tasks (self st))) st).
Proof.
  induction pre as [|u pre IH]; intros i st Hall Ht.
  - cbn [app complete_scan]. unfold mbind at 1, M_bind at 1, lift at 1.
    rewrite Ht. unfold mbind at 1, M_bind at 1, gets at 1. cbn beta iota.
    unfold mbind at 1, M_bind at 1, set_tasks at 1. cbn [length].
    by rewrite Nat.add_0_r.
  - apply Forall_cons in Hall as [Hu Hpre].
    cbn [app complete_scan]. unfold mbind at 1, M_bind at 1, lift at 1.
    rewrite Hu. rewrite IH by done. cbn [length].
    by rewrite Nat.add_succ_comm.
Qed.

(** A task without an id, met before any match, stops the scan. *)
Lemma complete_scan_key_error e n pre t post : ∀ i st,
  Forall (other_id n) pre → ¬ carries_id t →
  complete_scan e n i (pre ++ t :: post) st = (Raised (KeyError "id"), st).
Proof.
  induction pre as [|u pre IH]; intros i st Hall Ht.
  - cbn [app complete_scan]. unfold mbind at 1, M_bind at 1, lift at 1.
    unfold id_is, getitem. destruct (t !! "id") eqn:E; [|done].
    destruct Ht. by eexists.
  - apply Forall_cons in Hall as [Hu Hpre].
    cbn [app complete_scan]. unfold mbind at 1, M_bind at 1, lift at 1.
    rewrite Hu. by apply IH.
Qed.

Lemma complete_task_found e n pre t post st :
  tasks (self st) = pre ++ t :: post →
  Forall (other_id n) pre → same_id n t →
  complete_task e n st =
    (_save_tasks e;;
     print ("✓ Task " +:+ pretty n +:+ " marked as completed."))
      (put_tasks (pre ++ <[ "completed" := VBool true ]> t :: post) st).
Proof.
  intros Hts Hpre Ht. unfold complete_task.
  unfold mbind at 1, M_bind at 1, gets at 1. cbn beta iota.
  rewrite Hts at 1. rewrite complete_scan_found by done.
  rewrite Hts. cbn [Nat.add].
  rewrite alter_app_r_alt by lia. by rewrite Nat.sub_diag.
Qed.

Lemma complete_task_absent e n st :
  Forall (other_id n) (tasks (self st)) →
  complete_task e n st =
    (Returned (), out_line ("Task " +:+ pretty n +:+ " not found.") st).
Proof.
  intros Hall. unfold complete_task.
  unfold mbind at 1, M_bind at 1, gets at 1. cbn beta iota.
  by apply complete_scan_absent.
Qed.

(** The tail shared by the three mutating methods: save, then report. *)
Lemma save_then_print e line st :
  (_save_tasks e;; print line) st =
    match write_error e with
    | None =>
        (Returned (),
         out_line line
           (put_file (tasks_file (self st))
              (Some (json_dump (tasks (self st)))) st))
    | Some (msg, remains) =>
        (Exited 1,
         err_line ("Error saving tasks: " +:+ msg)
           (put_file (tasks_file (self st)) remains st))
    end.
Proof.
  unfold mbind, M_bind.
  destruct (write_error e) as [[msg remains]|] eqn:Hw.
  - by rewrite (_save_tasks_fault _ _ _ _ Hw).
  - by rewrite (_save_tasks_ok _ _ Hw).
Qed.

Lemma save_then_print_self e line st :
  self (snd ((_save_tasks e;; print line) st)) = self st.
Proof. rewrite save_then_print. by destruct (write_error e) as [[??]|]. Qed.

Lemma add_task_unfold e title description st :
  add_task e title description st =
    match max_id (tasks (self st)) ≫= py_add1 with
    | Returned next_id =>
        (_save_tasks e;; print ("✓ Task added: " +:+ title))
          (put_tasks
             (tasks (self st) ++
                [new_task next_id title description (now_isoformat e)]) st)
    | Raised ex => (Raised ex, st)
    | Exited c => (Exited c, st)
    end.
Proof.
  unfold add_task. unfold mbind at 1, M_bind at 1, gets at 1. cbn beta iota.
  unfold mbind at 1, M_bind at 1, lift at 1.
  destruct (max_id (tasks (self st))) as [m| |]; cbn; [|done..].
  by destruct (py_add1 m).
Qed.

(** Where the scan of [complete_task] stops. *)
Lemma first_match_cases n (ts : list task) :
  Forall (other_id n) ts ∨
  ∃ pre t post, ts = pre ++ t :: post ∧ Forall (other_id n) pre ∧
                (same_id n t ∨ ¬ carries_id t).
Proof.
  induction ts as [|u ts IH]; [by left|].
  destruct (decide (other_id n u)) as [Hu|Hu].
  - destruct IH as [Hall|(pre & t & post & -> & Hpre & Ht)].
    + left. by constructor.
    + right. exists (u :: pre), t, post. repeat split; [by constructor|done].
  - right. exists [], u, ts. repeat split; [constructor|].
    destruct (decide (carries_id u)) as [Hc|Hc]; [left|by right].
    apply (carries_id_cases n) in Hc as [?|?]; done.
Qed.

Lemma int_id_carries t z : int_id t = Some z → carries_id t.
Proof.
  unfold int_id, carries_id. destruct (t !! "id"); [eauto|done].
Qed.

Lemma ids_carries ts zs : ids ts = Some zs → Forall carries_id ts.
Proof.
  revert zs. induction ts as [|t ts IH]; intros zs; [constructor|].
  intros (z & zs' & Hz & Hzs & ->)%ids_cons_Some.
  constructor; [by eapply int_id_carries|by eapply IH].
Qed.

Lemma int_id_other n t z : int_id t = Some z → (other_id n t ↔ z ≠ n).
Proof.
  intros Hz. unfold other_id. rewrite (int_id_id_is n _ _ Hz).
  destruct (Z.eqb_spec z n); split; (congruence || done).
Qed.

Lemma ids_filter n ts zs :
  ids ts = Some zs →
  ids (filter (other_id n) ts) = Some (filter (λ z, z ≠ n) zs).
Proof.
  revert zs. induction ts as [|t ts IH]; intros zs.
  - by intros [= <-].
  - intros (z & zs' & Hz & Hzs & ->)%ids_cons_Some.
    rewrite !filter_cons.
    destruct (decide (other_id n t)) as [Ho|Ho], (decide (z ≠ n)) as [Hn|Hn].
    + apply ids_cons_Some. exists z, (filter (λ z, z ≠ n) zs'). auto.
    + by apply (int_id_other n _ _ Hz) in Ho.
    + by apply (int_id_other n _ _ Hz) in Hn.
    + by apply IH.
Qed.

Lemma int_id_completed t v : int_id (<[ "completed" := v ]> t) = int_id t.
Proof. unfold int_id. by rewrite lookup_insert_ne. Qed.

Lemma id_is_completed n t v : id_is n (<[ "completed" := v ]> t) = id_is n t.
Proof. unfold id_is, getitem. by rewrite lookup_insert_ne. Qed.

Lemma ids_app_inv ts us zs :
  ids (ts ++ us) = Some zs →
  ∃ xs ys, ids ts = Some xs ∧ ids us = Some ys ∧ zs = xs ++ ys.
Proof.
  revert zs. induction ts as [|t ts IH]; intros zs; cbn [app].
  - intros H. exists [], zs. done.
  - intros (z & zs' & Hz & Hzs & ->)%ids_cons_Some.
    destruct (IH _ Hzs) as (xs & ys & Hxs & Hys & ->).
    exists (z :: xs), ys. split; [|done].
    apply ids_cons_Some. eauto.
Qed.

Lemma ids_mark_completed pre t post zs :
  ids (pre ++ t :: post) = Some zs →
  ids (pre ++ <[ "completed" := VBool true ]> t :: post) = Some zs.
Proof.
  intros (xs & ys & Hxs & Hys & ->)%ids_app_inv.
  apply ids_app_Some; [done|].
  apply ids_cons_Some in Hys as (z & ys' & Hz & Hys' & ->).
  apply ids_cons_Some. exists z, ys'. by rewrite int_id_completed.
Qed.

Lemma max_default_pin d zs m :
  m ∈ zs → Forall (λ z, z ≤ m) zs → max_default d zs = m.
Proof.
  intros Hin Hle.
  assert (zs ≠ []) as Hne by (intros ->; by apply not_elem_of_nil in Hin).
  pose proof (max_default_elem d zs Hne) as Hmax.
  pose proof (max_default_bound d zs) as Hub.
  rewrite Forall_forall in Hle, Hub.
  specialize (Hle _ Hmax). specialize (Hub _ Hin). lia.
Qed.

Lemma ids_elem_same n ts zs :
  ids ts = Some zs → n ∈ zs → Exists (same_id n) ts.
Proof.
  revert zs. induction ts as [|t ts IH]; intros zs.
  - intros [= <-] Hin. by apply not_elem_of_nil in Hin.
  - intros (z & zs' & Hz & Hzs & ->)%ids_cons_Some [->|Hin]%elem_of_cons.
    + left. unfold same_id. rewrite (int_id_id_is z _ _ Hz).
      by rewrite Z.eqb_refl.
    + right. by eapply IH.
Qed.

(** ** The id a new task receives *)

(** C1. For a store whose tasks all carry an integer id, [add_task] builds
    a task whose id is the maximum of the ids present (0 when there is
    none) plus one, with the given title and description and [completed]
    false, appends it at the end of the list, and then saves: when the file
    can be written the whole new list is what the file holds and the call
    reports the title.  When the ids present are exactly 1, 2 and 3,
    deleting 3 and then adding gives the new task the id 3 again. *)
Theorem add_task_assigns_max_plus_one e title description st zs :
  ids (tasks (self st)) = Some zs →
  let t := new_task (VInt (max_default 0 zs + 1)) title description
             (now_isoformat e) in
  (t !! "id" = Some (VInt (max_default 0 zs + 1)) ∧
   t !! "title" = Some (VStr title) ∧
   t !! "description" = Some (VStr description) ∧
   t !! "completed" = Some (VBool false)) ∧
  tasks (self (snd (add_task e title description st))) =
    tasks (self st) ++ [t] ∧
  (write_error e = None →
   add_task e title description st =
     (Returned (),
      out_line ("✓ Task added: " +:+ title)
        (put_file (tasks_file (self st))
           (Some (json_dump (tasks (self st) ++ [t])))
           (put_tasks (tasks (self st) ++ [t]) st)))) ∧
  (∀ e1, (list_to_set zs : gset Z) = {[1; 2; 3]} →
     write_error e1 = None →
     tasks (self (snd ((delete_task e1 3;; add_task e title description) st))) =
       filter (other_id 3) (tasks (self st)) ++
         [new_task (VInt 3) title description (now_isoformat e)]).
Proof.
  intros Hids t. split; [|split; [|split]].
  - repeat split; unfold t, new_task; by simplify_map_eq.
  - rewrite (add_task_run _ _ _ _ _ Hids). by rewrite save_then_print_self.
  - intros Hw. rewrite (add_task_run _ _ _ _ _ Hids), save_then_print.
    by rewrite Hw.
  - intros e1 Hset Hw1.
    assert (∀ z, z ∈ zs ↔ z = 1 ∨ z = 2 ∨ z = 3) as Hmem.
    { intros z. rewrite <- (elem_of_list_to_set (C:=gset Z)), Hset.
      rewrite !elem_of_union, !elem_of_singleton. tauto. }
    pose proof (ids_carries _ _ Hids) as Hcar.
    assert (Exists (same_id 3) (tasks (self st))) as Hex.
    { eapply ids_elem_same; [done|]. apply Hmem. auto. }
    unfold mbind at 1, M_bind at 1.
    rewrite (delete_task_run _ _ _ Hcar).
    rewrite bool_decide_eq_true_2 by by apply filter_other_id_shorter.
    rewrite save_then_print, Hw1.
    pose proof (ids_filter 3 _ _ Hids) as Hids'.
    rewrite (add_task_run _ _ _ _ (filter (λ z, z ≠ 3) zs)) by done.
    rewrite save_then_print_self. cbn [put_tasks out_line put_file self tasks].
    rewrite (max_default_pin 0 _ 2); [done| |].
    + apply list_elem_of_filter. split; [lia|]. apply Hmem. auto.
    + apply Forall_forall. intros z [Hz Hin%Hmem]%list_elem_of_filter. lia.
Qed.

(** ** Distinct ids *)

Lemma int_id_new_task z title description created_at :
  int_id (new_task (VInt z) title description created_at) = Some z.
Proof. unfold int_id, new_task. by rewrite lookup_insert_eq. Qed.

Lemma ids_snoc_new ts zs z title description created_at :
  ids ts = Some zs →
  ids (ts ++ [new_task (VInt z) title description created_at]) =
    Some (zs ++ [z]).
Proof.
  intros Hids. apply ids_app_Some; [done|].
  apply ids_cons_Some. exists z, []. by rewrite int_id_new_task.
Qed.

Lemma max_default_snoc zs :
  max_default 0 (zs ++ [max_default 0 zs + 1]) = max_default 0 zs + 1.
Proof.
  apply max_default_pin.
  - apply elem_of_app. right. by left.
  - apply Forall_app. split; [|by repeat constructor].
    eapply Forall_impl; [apply (max_default_bound 0)|].
    intros z Hz. cbn in Hz. lia.
Qed.

Lemma next_id_fresh zs : max_default 0 zs + 1 ∉ zs.
Proof.
  intros Hin. pose proof (max_default_bound 0 zs) as Hub.
  rewrite Forall_forall in Hub. specialize (Hub _ Hin). lia.
Qed.

Lemma add_task_tasks e title description st zs :
  ids (tasks (self st)) = Some zs →
  tasks (self (snd (add_task e title description st))) =
    tasks (self st) ++
      [new_task (VInt (max_default 0 zs + 1)) title description
         (now_isoformat e)].
Proof.
  intros Hids. rewrite (add_task_run _ _ _ _ _ Hids).
  by rewrite save_then_print_self.
Qed.

Lemma complete_task_tasks_found e n pre t post st :
  tasks (self st) = pre ++ t :: post →
  Forall (other_id n) pre → same_id n t →
  tasks (self (snd (complete_task e n st))) =
    pre ++ <[ "completed" := VBool true ]> t :: post.
Proof.
  intros Hts Hpre Ht. rewrite (complete_task_found _ _ _ _ _ _ Hts Hpre Ht).
  by rewrite save_then_print_self.
Qed.

Lemma delete_task_tasks e n st :
  Forall carries_id (tasks (self st)) →
  tasks (self (snd (delete_task e n st))) =
    filter (other_id n) (tasks (self st)).
Proof.
  intros Hcar. rewrite (delete_task_run _ _ _ Hcar).
  case_bool_decide; [by rewrite save_then_print_self|done].
Qed.

Lemma add_task_keeps_distinct e title description st :
  distinct_ids (tasks (self st)) →
  distinct_ids (tasks (self (snd (add_task e title description st)))).
Proof.
  intros (zs & Hids & Hnd). rewrite (add_task_tasks _ _ _ _ _ Hids).
  exists (zs ++ [max_default 0 zs + 1]). split; [by apply ids_snoc_new|].
  apply NoDup_app. repeat split; [done| |apply NoDup_singleton].
  intros z Hz ->%list_elem_of_singleton. by apply next_id_fresh in Hz.
Qed.

Lemma complete_task_keeps_distinct e n st :
  distinct_ids (tasks (self st)) →
  distinct_ids (tasks (self (snd (complete_task e n st)))).
Proof.
  intros (zs & Hids & Hnd).
  destruct (first_match_cases n (tasks (self st)))
    as [Hall|(pre & t & post & Hts & Hpre & [Ht|Ht])].
  - rewrite (complete_task_absent _ _ _ Hall). by exists zs.
  - rewrite (complete_task_tasks_found _ _ _ _ _ _ Hts Hpre Ht).
    exists zs. split; [|done]. apply ids_mark_completed. by rewrite <- Hts.
  - destruct Ht. pose proof (ids_carries _ _ Hids) as Hcar.
    rewrite Hts in Hcar. by apply Forall_app in Hcar as [_ [??]%Forall_cons].
Qed.

Lemma delete_task_keeps_distinct e n st :
  distinct_ids (tasks (self st)) →
  distinct_ids (tasks (self (snd (delete_task e n st)))).
Proof.
  intros (zs & Hids & Hnd).
  rewrite (delete_task_tasks _ _ _ (ids_carries _ _ Hids)).
  exists (filter (λ z, z ≠ n) zs). split; [by apply ids_filter|].
  by apply NoDup_filter.
Qed.

(** A run of [add_task] calls appends tasks whose ids increase strictly
    and all exceed the maximum the run started from. *)
Lemma adds_increasing cs : ∀ st zs,
  Forall (λ ec, is_add ec.2) cs →
  ids (tasks (self st)) = Some zs →
  ∃ news zs',
    tasks (self (snd (run_mutations cs st))) = tasks (self st) ++ news ∧
    ids news = Some zs' ∧
    StronglySorted Z.lt zs' ∧
    Forall (λ z, max_default 0 zs < z) zs' ∧
    (length news ≤ length cs)%nat ∧
    (fst (run_mutations cs st) = Returned () → length news = length cs).
Proof.
  induction cs as [|[e c] cs IH]; intros st zs Hall Hids.
  - exists [], []. cbn. rewrite app_nil_r.
    split_and!; (done || constructor).
  - apply Forall_cons in Hall as [Hc Hall].
    destruct c as [title description| |]; [|done..].
    cbn [run_mutations run_mutation].
    set (t := new_task (VInt (max_default 0 zs + 1)) title description
                (now_isoformat e)).
    pose proof (add_task_tasks e title description _ _ Hids) as Hts.
    fold t in Hts.
    unfold mbind, M_bind.
    destruct (add_task e title description st) as [[[]|ex|k] st1] eqn:Hrun;
      cbn [snd] in Hts.
    + assert (ids (tasks (self st1)) = Some (zs ++ [max_default 0 zs + 1]))
        as Hids1 by (rewrite Hts; by apply ids_snoc_new).
      destruct (IH st1 _ Hall Hids1)
        as (news & zs' & Hnews & Hidn & Hsort & Hgt & Hlen & Hret).
      rewrite max_default_snoc in Hgt.
      exists (t :: news), ((max_default 0 zs + 1) :: zs').
      split_and!.
      * rewrite Hnews, Hts. by rewrite <- app_assoc.
      * apply ids_cons_Some. exists (max_default 0 zs + 1), zs'.
        unfold t. by rewrite int_id_new_task.
      * by constructor.
      * constructor; [lia|]. eapply Forall_impl; [done|]. cbn. lia.
      * cbn. lia.
      * intros Hr. cbn [length]. f_equal. by apply Hret.
    + exists [t], [max_default 0 zs + 1]. cbn [snd fst length].
      split_and!; try done; try lia; repeat constructor; lia.
    + exists [t], [max_default 0 zs + 1]. cbn [snd fst length].
      split_and!; try done; try lia; repeat constructor; lia.
Qed.

(** C2. Pairwise distinct ids are an invariant: from a store whose tasks
    carry pairwise distinct integer ids, each of [add_task],
    [complete_task] and [delete_task] leaves a store with pairwise distinct
    ids, however the call ends.  A run made only of [add_task] calls
    appends tasks whose ids are strictly increasing (and all greater than
    the ids the run started with), one task per call when every save
    succeeds. *)
Theorem distinct_ids_invariant e c cs st zs :
  distinct_ids (tasks (self st)) →
  ids (tasks (self st)) = Some zs →
  Forall (λ ec, is_add ec.2) cs →
  distinct_ids (tasks (self (snd (run_mutation e c st)))) ∧
  ∃ news zs',
    tasks (self (snd (run_mutations cs st))) = tasks (self st) ++ news ∧
    ids news = Some zs' ∧
    StronglySorted Z.lt zs' ∧
    Forall (λ z, Forall (λ old, old < z) zs) zs' ∧
    (fst (run_mutations cs st) = Returned () → length news = length cs).
Proof.
  intros Hdist Hids Hadds. split.
  - destruct c as [title description|n|n]; cbn [run_mutation].
    + by apply add_task_keeps_distinct.
    + by apply complete_task_keeps_distinct.
    + by apply delete_task_keeps_distinct.
  - destruct (adds_increasing cs st zs Hadds Hids)
      as (news & zs' & Hnews & Hidn & Hsort & Hgt & _ & Hret).
    exists news, zs'. repeat split; try done.
    eapply Forall_impl; [exact Hgt|]. intros z Hz.
    eapply Forall_impl; [apply (max_default_bound 0)|].
    intros old Hold. cbn in *. lia.
Qed.

(** ** Ids that are not in the store *)

Lemma put_tasks_same st : put_tasks (tasks (self st)) st = st.
Proof. by destruct st as [[path ts] o]. Qed.

Lemma delete_task_absent e n st :
  Forall (other_id n) (tasks (self st)) →
  delete_task e n st =
    (Returned (), out_line ("Task " +:+ pretty n +:+ " not found.") st).
Proof.
  intros Hall.
  assert (Forall carries_id (tasks (self st))) as Hcar.
  { eapply Forall_impl; [done|]. apply other_id_carries. }
  rewrite (delete_task_run _ _ _ Hcar), (filter_other_id_all _ _ Hall).
  rewrite bool_decide_eq_false_2 by lia.
  by rewrite put_tasks_same.
Qed.

(** C4. When every task of the store carries an id other than [n] (any
    integer, negative and zero included), [complete_task n] and
    [delete_task n] both return after printing the not-found line that
    names [n], and nothing else changes: the object, its task list and the
    files are as before.  The result is the same under every runtime,
    also one in which writing the file fails, so no save takes place. *)
Theorem not_found_leaves_store e n st :
  Forall (other_id n) (tasks (self st)) →
  let st' := out_line ("Task " +:+ pretty n +:+ " not found.") st in
  complete_task e n st = (Returned (), st') ∧
  delete_task e n st = (Returned (), st') ∧
  tasks (self st') = tasks (self st) ∧
  length (tasks (self st')) = length (tasks (self st)) ∧
  same_store st st'.
Proof.
  intros Hall st'. split_and!; try done.
  - by apply complete_task_absent.
  - by apply delete_task_absent.
Qed.

(** ** Completing a task *)

Lemma same_id_mark_completed n t :
  same_id n t → same_id n (<[ "completed" := VBool true ]> t).
Proof. unfold same_id. by rewrite id_is_completed. Qed.

(** C6. In a store that contains a task with id [n] (the scan reaches it
    past tasks that carry other ids), with a file that can be written,
    [complete_task n] called twice reports success naming [n] both times,
    and the second call leaves the object and the files exactly as the
    first call left them. *)
Theorem complete_task_idempotent e1 e2 n pre t post st :
  tasks (self st) = pre ++ t :: post →
  Forall (other_id n) pre → same_id n t →
  write_error e1 = None → write_error e2 = None →
  let line := "✓ Task " +:+ pretty n +:+ " marked as completed." in
  let r1 := complete_task e1 n st in
  let r2 := complete_task e2 n (snd r1) in
  fst r1 = Returned () ∧ fst r2 = Returned () ∧
  stdout (os (snd r1)) = stdout (os st) ++ [line] ∧
  stdout (os (snd r2)) = stdout (os (snd r1)) ++ [line] ∧
  tasks (self (snd r2)) = tasks (self (snd r1)) ∧
  same_store (snd r1) (snd r2).
Proof.
  intros Hts Hpre Ht Hw1 Hw2 line r1 r2.
  assert (r1 =
    (Returned (),
     out_line line
       (put_file (tasks_file (self st))
          (Some (json_dump (pre ++ <[ "completed" := VBool true ]> t :: post)))
          (put_tasks (pre ++ <[ "completed" := VBool true ]> t :: post) st))))
    as Hr1.
  { unfold r1. rewrite (complete_task_found _ _ _ _ _ _ Hts Hpre Ht).
    rewrite save_then_print. by rewrite Hw1. }
  assert (r2 =
    (Returned (),
     out_line line
       (put_file (tasks_file (self st))
          (Some (json_dump (pre ++ <[ "completed" := VBool true ]> t :: post)))
          (put_tasks (pre ++ <[ "completed" := VBool true ]> t :: post)
             (snd r1)))))
    as Hr2.
  { unfold r2. rewrite Hr1. cbn [snd].
    rewrite (complete_task_found _ _ pre
               (<[ "completed" := VBool true ]> t) post);
      [|done|done|by apply same_id_mark_completed].
    rewrite save_then_print, Hw2. by rewrite insert_insert_eq. }
  rewrite Hr2, Hr1. cbn. split_and!; try done.
  unfold same_store. cbn. split_and!; try done.
  by rewrite partial_alter_partial_alter_eq.
Qed.

(** ** What the mutating methods leave alone *)

Lemma filter_other_id_first n pre t post :
  Forall (other_id n) pre → same_id n t →
  filter (other_id n) (pre ++ t :: post) = pre ++ filter (other_id n) post.
Proof.
  intros Hpre Ht. rewrite filter_app, (filter_other_id_all _ _ Hpre).
  rewrite filter_cons_False; [done|].
  intros Ho. by eapply same_other_id.
Qed.

(** C9. In a store where the scan for id [n] first matches the task [t],
    [complete_task n] replaces [t] by a task whose [completed] field is
    true and whose other fields are those of [t], and leaves every other
    task in place; [delete_task n] (all tasks carrying an id) keeps exactly
    the tasks whose id differs from [n], in their order and unchanged. *)
Theorem mutations_frame e n pre t post st :
  tasks (self st) = pre ++ t :: post →
  Forall (other_id n) pre → same_id n t →
  (∃ t',
     tasks (self (snd (complete_task e n st))) = pre ++ t' :: post ∧
     t' !! "completed" = Some (VBool true) ∧
     ∀ key, key ≠ "completed" → t' !! key = t !! key) ∧
  (Forall carries_id post →
   let ts' := tasks (self (snd (delete_task e n st))) in
   ts' = filter (other_id n) (tasks (self st)) ∧
   ts' = pre ++ filter (other_id n) post ∧
   ts' `sublist_of` tasks (self st) ∧
   ∀ u, u ∈ ts' ↔ u ∈ tasks (self st) ∧ other_id n u).
Proof.
  intros Hts Hpre Ht. split.
  - exists (<[ "completed" := VBool true ]> t). split_and!.
    + by apply complete_task_tasks_found.
    + by rewrite lookup_insert_eq.
    + intros key Hkey. by rewrite lookup_insert_ne.
  - intros Hpost ts'.
    assert (Forall carries_id (tasks (self st))) as Hcar.
    { rewrite Hts. apply Forall_app. split.
      - eapply Forall_impl; [done|]. apply other_id_carries.
      - constructor; [by eapply same_id_carries|done]. }
    assert (ts' = filter (other_id n) (tasks (self st))) as ->
      by by apply delete_task_tasks.
    split_and!; [done| |apply sublist_filter|].
    + rewrite Hts. by apply filter_other_id_first.
    + intros u. rewrite list_elem_of_filter. by split; intros [??].
Qed.

(** C10. When two tasks of the store carry the id [n], [complete_task n]
    marks the first of them and leaves the second as it was, while
    [delete_task n] removes both: no task with id [n] remains and the list
    is shorter by at least two. *)
Theorem duplicate_ids_asymmetry e n pre t1 mid t2 post st :
  tasks (self st) = pre ++ t1 :: mid ++ t2 :: post →
  Forall (other_id n) pre → same_id n t1 → same_id n t2 →
  Forall carries_id mid → Forall carries_id post →
  tasks (self (snd (complete_task e n st))) =
    pre ++ <[ "completed" := VBool true ]> t1 :: mid ++ t2 :: post ∧
  tasks (self (snd (delete_task e n st))) =
    pre ++ filter (other_id n) mid ++ filter (other_id n) post ∧
  Forall (other_id n) (tasks (self (snd (delete_task e n st)))) ∧
  (length (tasks (self (snd (delete_task e n st)))) + 2
   ≤ length (tasks (self st)))%nat.
Proof.
  intros Hts Hpre Ht1 Ht2 Hmid Hpost.
  assert (Forall carries_id (tasks (self st))) as Hcar.
  { rewrite Hts. apply Forall_app. split.
    - eapply Forall_impl; [done|]. apply other_id_carries.
    - constructor; [by eapply same_id_carries|].
      apply Forall_app. split; [done|].
      constructor; [by eapply same_id_carries|done]. }
  assert (tasks (self (snd (delete_task e n st))) =
          pre ++ filter (other_id n) mid ++ filter (other_id n) post) as Hdel.
  { rewrite (delete_task_tasks _ _ _ Hcar), Hts.
    rewrite (filter_other_id_first _ _ _ _ Hpre Ht1), filter_app.
    rewrite (filter_cons_False _ t2); [done|].
    intros Ho. by eapply same_other_id. }
  split_and!.
  - by apply complete_task_tasks_found.
  - done.
  - rewrite Hdel. rewrite !Forall_app. split_and!; [done| |].
    + apply Forall_forall. by intros u [? _]%list_elem_of_filter.
    + apply Forall_forall. by intros u [? _]%list_elem_of_filter.
  - rewrite Hdel, Hts. rewrite !length_app. cbn [length].
    rewrite length_app. cbn [length].
    pose proof (length_filter (other_id n) mid).
    pose proof (length_filter (other_id n) post). lia.
Qed.

(** ** Listing *)

Lemma same_store_refl st : same_store st st.
Proof. by repeat split. Qed.

Lemma same_store_trans st1 st2 st3 :
  same_store st1 st2 → same_store st2 st3 → same_store st1 st3.
Proof.
  unfold same_store. intros (? & ? & ?) (? & ? & ?).
  split_and!; congruence.
Qed.

Lemma print_reads_only line : reads_only (print line).
Proof. intros st. by repeat split. Qed.

Lemma mret_reads_only {A} (a : A) : reads_only (mret a).
Proof. intros st. apply same_store_refl. Qed.

Lemma lift_reads_only {A} (o : outcome A) : reads_only (lift o).
Proof. intros st. apply same_store_refl. Qed.

Lemma gets_reads_only {A} (f : state → A) : reads_only (gets f).
Proof. intros st. apply same_store_refl. Qed.

Lemma bind_reads_only {A B} (m : M A) (f : A → M B) :
  reads_only m → (∀ a, reads_only (f a)) → reads_only (m ≫= f).
Proof.
  intros Hm Hf st. specialize (Hm st). unfold mbind, M_bind.
  destruct (m st) as [[a|ex|k] st1]; cbn [snd] in *; [|done..].
  eapply same_store_trans; [done|]. apply Hf.
Qed.

Lemma show_task_reads_only t : reads_only (show_task t).
Proof.
  unfold show_task.
  apply bind_reads_only; [apply lift_reads_only|]. intros i.
  apply bind_reads_only; [apply lift_reads_only|]. intros ti.
  apply bind_reads_only; [apply print_reads_only|]. intros _.
  destruct (truthy _); [|apply mret_reads_only].
  apply bind_reads_only; [apply lift_reads_only|]. intros d.
  apply print_reads_only.
Qed.

Lemma for_each_reads_only {A} (xs : list A) (body : A → M unit) :
  (∀ x, reads_only (body x)) → reads_only (for_each xs body).
Proof.
  intros Hbody. induction xs as [|x xs IH]; cbn [for_each].
  - apply mret_reads_only.
  - apply bind_reads_only; [apply Hbody|]. by intros _.
Qed.

Lemma list_tasks_reads_only show_completed :
  reads_only (list_tasks show_completed).
Proof.
  unfold list_tasks.
  apply bind_reads_only; [apply gets_reads_only|]. intros ts.
  destruct ts as [|t ts]; [apply print_reads_only|].
  destruct (tasks_to_show _ _) as [|u shown]; [apply print_reads_only|].
  apply bind_reads_only; [apply print_reads_only|]. intros _.
  apply bind_reads_only; [apply print_reads_only|]. intros _.
  apply bind_reads_only; [|intros _; apply print_reads_only].
  apply for_each_reads_only. apply show_task_reads_only.
Qed.

(** C8. [list_tasks] changes neither the object nor any file, whichever
    value [show_completed] has and however the call ends (a listing line
    that cannot be built raises [KeyError]): the task list in memory and
    the content of every file are the same after the call as before. *)
Theorem list_tasks_pure_read show_completed st :
  tasks (self (snd (list_tasks show_completed st))) = tasks (self st) ∧
  fs (os (snd (list_tasks show_completed st))) = fs (os st) ∧
  same_store st (snd (list_tasks show_completed st)).
Proof.
  pose proof (list_tasks_reads_only show_completed st) as Hsame.
  split_and!; [|apply Hsame|done].
  destruct Hsame as (-> & _). done.
Qed.

Lemma out_lines_nil st : out_lines [] st = st.
Proof. destruct st as [app [files out err]]. unfold out_lines. cbn. by rewrite app_nil_r. Qed.

Lemma out_lines_app l1 l2 st :
  out_lines l2 (out_lines l1 st) = out_lines (l1 ++ l2) st.
Proof. unfold out_lines. cbn. by rewrite app_assoc. Qed.

Lemma out_line_lines line st : out_line line st = out_lines [line] st.
Proof. reflexivity. Qed.

Lemma show_task_lines t st :
  listable t →
  show_task t st = (Returned (), out_lines (task_lines t) st).
Proof.
  intros [[i Hi] [ti Hti]]. unfold show_task, task_lines, get, getitem.
  rewrite Hi, Hti. cbn [default from_option id].
  unfold mbind at 1, M_bind at 1, lift at 1.
  unfold mbind at 1, M_bind at 1, lift at 1.
  unfold mbind at 1, M_bind at 1, print at 1.
  destruct (t !! "description") as [d|]; cbn [default from_option id];
    [|done].
  destruct (truthy d); [|done].
  unfold mbind at 1, M_bind at 1, lift at 1. unfold print.
  by rewrite !out_line_lines, out_lines_app.
Qed.

Lemma for_each_show_task shown : ∀ st,
  Forall listable shown →
  for_each shown show_task st =
    (Returned (), out_lines (concat (task_lines <$> shown)) st).
Proof.
  induction shown as [|t shown IH]; intros st Hall.
  - cbn. by rewrite out_lines_nil.
  - apply Forall_cons in Hall as [Ht Hall].
    cbn [for_each fmap list_fmap concat].
    unfold mbind at 1, M_bind at 1. rewrite (show_task_lines _ _ Ht).
    rewrite (IH _ Hall). by rewrite out_lines_app.
Qed.

Lemma incomplete_missing t : t !! "completed" = None → incomplete t = true.
Proof. unfold incomplete, get. by intros ->. Qed.

Lemma incomplete_flag t b :
  t !! "completed" = Some (VBool b) → incomplete t = negb b.
Proof. unfold incomplete, get. by intros ->. Qed.

(** C5. What [list_tasks] selects and prints.  With [show_completed] true
    every task is selected; with [show_completed] false exactly the tasks
    that are not completed are, in the order of the store, and a task
    without a [completed] field or with [completed] false is not completed
    while one with [completed] true is.  On an empty store the call prints
    the no-tasks line and nothing else; when the store is not empty and the
    selection is, it prints the no-incomplete-tasks line, a different one;
    otherwise it prints the header, a rule, the lines of the selected tasks
    in their order, and a rule. *)
Theorem list_tasks_selection show_completed st :
  let ts := tasks (self st) in
  let shown := tasks_to_show show_completed ts in
  (tasks_to_show true ts = ts ∧
   tasks_to_show false ts `sublist_of` ts ∧
   (∀ t, t ∈ tasks_to_show false ts ↔ t ∈ ts ∧ incomplete t = true) ∧
   (∀ t, t !! "completed" = None → incomplete t = true) ∧
   (∀ t b, t !! "completed" = Some (VBool b) → incomplete t = negb b)) ∧
  (ts = [] →
   list_tasks show_completed st =
     (Returned (), out_line "No tasks found." st)) ∧
  (ts ≠ [] → shown = [] →
   list_tasks show_completed st =
     (Returned (), out_line "No incomplete tasks found." st)) ∧
  "No incomplete tasks found." ≠ "No tasks found." ∧
  (ts ≠ [] → shown ≠ [] → Forall listable shown →
   list_tasks show_completed st =
     (Returned (),
      out_lines
        ([list_header; str_mul "-" 60] ++ concat (task_lines <$> shown) ++
         [str_mul "-" 60]) st)).
Proof.
  intros ts shown. split_and!.
  - done.
  - apply sublist_filter.
  - intros t. unfold tasks_to_show. cbn [negb].
    rewrite list_elem_of_filter. by split; intros [??].
  - apply incomplete_missing.
  - apply incomplete_flag.
  - intros Hts. unfold list_tasks, mbind, M_bind, gets. fold ts.
    by rewrite Hts.
  - intros Hts Hshown. unfold list_tasks.
    unfold mbind at 1, M_bind at 1, gets at 1. cbn beta iota. fold ts.
    destruct ts as [|t0 ts0]; [done|]. cbn iota. fold shown.
    by rewrite Hshown.
  - done.
  - intros Hts Hne Hall. unfold list_tasks.
    unfold mbind at 1, M_bind at 1, gets at 1. cbn beta iota. fold ts.
    destruct ts as [|t0 ts0]; [done|]. cbn iota. fold shown.
    destruct shown as [|u0 shown0] eqn:Hshown; [done|].
    unfold mbind at 1, M_bind at 1, print at 1.
    unfold mbind at 1, M_bind at 1, print at 1.
    unfold mbind at 1, M_bind at 1.
    rewrite (for_each_show_task _ _ Hall). unfold print.
    by rewrite !out_line_lines, !out_lines_app.
Qed.

(** ** Loading *)

Lemma init_absent e path o :
  fs o !! path = None →
  __init__ e path o = (Returned {| tasks_file := path; tasks := [] |}, o).
Proof.
  intros Hfile. unfold __init__, _load_tasks, mbind, M_bind, gets. cbn.
  by rewrite Hfile.
Qed.

Lemma init_read_error e path o c msg :
  fs o !! path = Some c → read_error e = Some msg →
  __init__ e path o =
    (Returned {| tasks_file := path; tasks := [] |},
     {| fs := fs o; stdout := stdout o;
        stderr := stderr o ++ ["Error loading tasks: " +:+ msg] |}).
Proof.
  intros Hfile Hr.
  unfold __init__, _load_tasks, try_except, read_json, mbind, M_bind, gets.
  cbn. by rewrite Hfile, Hr.
Qed.

Lemma init_json_load e path o c :
  fs o !! path = Some c → read_error e = None →
  __init__ e path o =
    match json_load c with
    | Returned ts => (Returned {| tasks_file := path; tasks := ts |}, o)
    | Raised (JSONDecodeError msg) | Raised (IOError msg) =>
        (Returned {| tasks_file := path; tasks := [] |},
         {| fs := fs o; stdout := stdout o;
            stderr := stderr o ++ ["Error loading tasks: " +:+ msg] |})
    | Raised ex => (Raised ex, o)
    | Exited k => (Exited k, o)
    end.
Proof.
  intros Hfile Hr.
  unfold __init__, _load_tasks, try_except, read_json, mbind, M_bind, gets.
  cbn [self os tasks_file]. rewrite Hfile. cbn [self os tasks_file].
  rewrite Hfile, Hr. unfold lift.
  destruct (json_load c) as [ts|[]|k]; done.
Qed.

(** Only the two exception classes named in the [except] clause are
    recovered from: any other exception of the read leaves construction
    with that exception. *)
Lemma init_other_error e path o c msg :
  fs o !! path = Some c → read_error e = None →
  json_load c = Raised (OtherError msg) →
  __init__ e path o = (Raised (OtherError msg), o).
Proof.
  intros Hfile Hr Hbad. rewrite (init_json_load _ _ _ c) by done.
  by rewrite Hbad.
Qed.


(** ** Persistence *)

Lemma init_fs e path o : fs (snd (__init__ e path o)) = fs o.
Proof.
  destruct (fs o !! path) as [c|] eqn:Hfile.
  - destruct (read_error e) as [msg|] eqn:Hr.
    + by rewrite (init_read_error _ _ _ c msg).
    + rewrite (init_json_load _ _ _ c) by done.
      by destruct (json_load c) as [ts|[]|k].
  - by rewrite init_absent.
Qed.

(** What is loaded depends on the runtime and on the files only through
    the reading fault and the file at the path. *)
Lemma init_fst_ext e e' path o o' :
  read_error e = read_error e' → fs o !! path = fs o' !! path →
  fst (__init__ e path o) = fst (__init__ e' path o').
Proof.
  intros Hr Hfile. destruct (fs o !! path) as [c|] eqn:Ho.
  - destruct (read_error e) as [msg|] eqn:He.
    + rewrite (init_read_error e _ o c msg), (init_read_error e' _ o' c msg);
        done.
    + rewrite (init_json_load e _ o c), (init_json_load e' _ o' c) by done.
      by destruct (json_load c) as [ts|[]|k].
  - by rewrite !init_absent.
Qed.

Lemma init_synced e path o app o1 :
  read_error e = None → __init__ e path o = (Returned app, o1) →
  tasks_file app = path ∧ synced {| self := app; os := o1 |}.
Proof.
  intros Hr Hinit.
  assert (tasks_file app = path) as Hpath.
  { destruct (fs o !! path) as [c|] eqn:Hfile.
    - rewrite (init_json_load _ _ _ c) in Hinit by done.
      destruct (json_load c) as [ts|[]|k]; by inversion Hinit.
    - rewrite init_absent in Hinit by done. by inversion Hinit. }
  split; [done|]. intros e' Hr'. cbn [self os]. rewrite Hpath.
  rewrite (init_fst_ext e' e path o1 o); [by rewrite Hinit|congruence|].
  pose proof (init_fs e path o) as Hfs. rewrite Hinit in Hfs. cbn in Hfs.
  by rewrite Hfs.
Qed.

Lemma synced_after_save line ts st :
  (∀ ts, json_load (json_dump ts) = Returned ts) →
  synced
    (out_line line
       (put_file (tasks_file (self st)) (Some (json_dump ts))
          (put_tasks ts st))).
Proof.
  intros Hcodec e Hr. cbn [out_line put_file put_tasks self os tasks_file].
  rewrite (init_json_load _ _ _ (json_dump ts)); cbn [fs]; [|
    by rewrite lookup_partial_alter_eq|done].
  by rewrite Hcodec.
Qed.

Lemma synced_out_line line st : synced st → synced (out_line line st).
Proof.
  intros Hsync e Hr. cbn [out_line self os].
  rewrite (init_fst_ext e e _ _ (os st)); [by apply Hsync|done..].
Qed.

Lemma carries_id_split n (ts : list task) :
  Forall carries_id ts → Forall (other_id n) ts ∨ Exists (same_id n) ts.
Proof.
  induction 1 as [|t ts Ht _ [IH|IH]]; [by left| |by right; right].
  apply (carries_id_cases n) in Ht as [Ht|Ht].
  - right. by left.
  - left. by constructor.
Qed.

Lemma complete_task_key_error e n pre t post st :
  tasks (self st) = pre ++ t :: post →
  Forall (other_id n) pre → ¬ carries_id t →
  complete_task e n st = (Raised (KeyError "id"), st).
Proof.
  intros Hts Hpre Ht. unfold complete_task.
  unfold mbind at 1, M_bind at 1, gets at 1. cbn beta iota.
  rewrite Hts. by apply complete_scan_key_error.
Qed.

(** How a mutating call can end: without touching the state, after the
    not-found line alone, or through an assignment to the task list
    followed by a save and a report. *)
Lemma run_mutation_shape e c st :
  (∃ o, run_mutation e c st = (o, st)) ∨
  (∃ line, run_mutation e c st = (Returned (), out_line line st)) ∨
  (∃ line ts,
     run_mutation e c st =
       (_save_tasks e;; print line) (put_tasks ts st)).
Proof.
  destruct c as [title description|n|n]; cbn [run_mutation].
  - rewrite add_task_unfold.
    destruct (max_id (tasks (self st)) ≫= py_add1); eauto.
  - destruct (first_match_cases n (tasks (self st)))
      as [Hall|(pre & t & post & Hts & Hpre & [Ht|Ht])].
    + rewrite (complete_task_absent _ _ _ Hall). eauto.
    + rewrite (complete_task_found _ _ _ _ _ _ Hts Hpre Ht). eauto.
    + rewrite (complete_task_key_error _ _ _ _ _ _ Hts Hpre Ht). eauto.
  - destruct (decide (Forall carries_id (tasks (self st)))) as [Hcar|Hcar].
    + destruct (carries_id_split n _ Hcar) as [Hall|Hex].
      * rewrite (delete_task_absent _ _ _ Hall). eauto.
      * rewrite (delete_task_run _ _ _ Hcar).
        rewrite bool_decide_eq_true_2 by by apply filter_other_id_shorter.
        eauto.
    + rewrite (delete_task_key_error _ _ _ Hcar). eauto.
Qed.

Lemma run_mutation_synced e c st :
  (∀ ts, json_load (json_dump ts) = Returned ts) →
  synced st →
  (∀ k, fst (run_mutation e c st) ≠ Exited k) →
  synced (snd (run_mutation e c st)) ∧
  tasks_file (self (snd (run_mutation e c st))) = tasks_file (self st).
Proof.
  intros Hcodec Hsync Hlive.
  destruct (run_mutation_shape e c st)
    as [[o Hrun]|[[line Hrun]|(line & ts & Hrun)]];
    rewrite Hrun in *; cbn [snd].
  - done.
  - split; [by apply synced_out_line|done].
  - rewrite save_then_print in *.
    destruct (write_error e) as [[msg remains]|]; cbn [fst snd] in *.
    + by destruct (Hlive 1).
    + split; [|done].
      by apply (synced_after_save line ts (put_tasks ts st)).
Qed.

Lemma run_mutations_synced cs : ∀ st,
  (∀ ts, json_load (json_dump ts) = Returned ts) →
  synced st →
  (∀ k, fst (run_mutations cs st) ≠ Exited k) →
  synced (snd (run_mutations cs st)) ∧
  tasks_file (self (snd (run_mutations cs st))) = tasks_file (self st).
Proof.
  induction cs as [|[e c] cs IH]; intros st Hcodec Hsync Hlive; [done|].
  cbn [run_mutations] in *. unfold mbind, M_bind in *.
  pose proof (run_mutation_synced e c st Hcodec Hsync) as Hstep.
  destruct (run_mutation e c st) as [[[]|ex|k] st1]; cbn [fst snd] in *.
  - destruct Hstep as [Hsync1 Hpath1]; [done|].
    destruct (IH st1 Hcodec Hsync1 Hlive) as [Hsync2 Hpath2].
    split; [done|congruence].
  - by apply Hstep.
  - by destruct (Hlive k).
Qed.

(** C3. Round trip, for a JSON codec that reads back what it writes.  An
    object is constructed from a path (the read not failing), any sequence
    of [add_task], [complete_task] and [delete_task] calls runs on it with
    no save failing, and a second object is constructed from the same
    path: the second object has the same path and the same task list, in
    the same order and with the same field values, as the first has in
    memory after the calls. *)
Theorem round_trip e0 path o0 app o1 cs e1 :
  (∀ ts, json_load (json_dump ts) = Returned ts) →
  read_error e0 = None → __init__ e0 path o0 = (Returned app, o1) →
  (∀ k, fst (run_mutations cs {| self := app; os := o1 |}) ≠ Exited k) →
  read_error e1 = None →
  let st := snd (run_mutations cs {| self := app; os := o1 |}) in
  ∃ app' o2,
    __init__ e1 path (os st) = (Returned app', o2) ∧
    tasks_file app' = path ∧ tasks app' = tasks (self st).
Proof.
  intros Hcodec Hr0 Hinit Hlive Hr1 st.
  destruct (init_synced _ _ _ _ _ Hr0 Hinit) as [Hpath Hsync].
  destruct (run_mutations_synced cs _ Hcodec Hsync Hlive) as [Hsync' Hpath'].
  fold st in Hsync', Hpath'. cbn [self tasks_file] in Hpath'.
  specialize (Hsync' e1 Hr1). rewrite Hpath', Hpath in Hsync'.
  destruct (__init__ e1 path (os st)) as [r o2]. cbn [fst] in Hsync'.
  subst r. exists (self st), o2. split_and!; [done|congruence|done].
Qed.

(** ** How a mutating call can end *)

Lemma py_gt_cases a b :
  (∃ r, py_gt a b = Returned r) ∨ py_gt a b = Raised TypeError.
Proof.
  unfold py_gt. destruct (as_int a), (as_int b), a, b; eauto.
Qed.

Lemma max_from_cases ts : ∀ cur,
  (∃ v, max_from cur ts = Returned v) ∨
  max_from cur ts = Raised (KeyError "id") ∨
  max_from cur ts = Raised TypeError.
Proof.
  induction ts as [|t ts IH]; intros cur; cbn [max_from]; [eauto|].
  unfold getitem. destruct (t !! "id") as [v|]; cbn; [|auto].
  destruct (py_gt_cases v cur) as [[b ->]| ->]; cbn; [apply IH|auto].
Qed.

(** The expression [max(...) + 1] of [add_task] gives a value or raises
    one of two exceptions. *)
Lemma next_id_cases ts :
  (∃ v, max_id ts ≫= py_add1 = Returned v) ∨
  max_id ts ≫= py_add1 = Raised (KeyError "id") ∨
  max_id ts ≫= py_add1 = Raised TypeError.
Proof.
  assert (∀ m, (∃ v, py_add1 m = Returned v) ∨ py_add1 m = Raised TypeError)
    as Hadd.
  { intros m. unfold py_add1. destruct (as_int m); eauto. }
  destruct ts as [|t ts]; cbn [max_id].
  - left. by eexists.
  - unfold getitem. destruct (t !! "id") as [v|]; cbn; [|auto].
    destruct (max_from_cases ts v) as [[m ->]|[->| ->]]; cbn; [|auto..].
    destruct (Hadd m) as [[w ->]| ->]; eauto.
Qed.

(** A maximum that is a number was taken over numbers. *)
Lemma max_from_int_result ts : ∀ cur v z,
  max_from cur ts = Returned v → as_int v = Some z →
  is_Some (as_int cur) ∧ is_Some (ids ts).
Proof.
  induction ts as [|t ts IH]; intros cur v z; cbn [max_from].
  - intros [= ->] Hz. split; by eexists.
  - unfold getitem. destruct (t !! "id") as [x|] eqn:Hx; cbn; [|done].
    destruct (py_gt x cur) as [b| |] eqn:Hgt; cbn; [|done..].
    intros Hmax Hz. destruct (IH _ _ _ Hmax Hz) as [[c Hc] [zs Hzs]].
    unfold py_gt in Hgt.
    destruct (as_int x) as [xi|] eqn:Hxi, (as_int cur) as [ci|] eqn:Hci.
    + split; [by eexists|]. exists (xi :: zs). apply ids_cons_Some.
      exists xi, zs. split_and!; try done. unfold int_id. by rewrite Hx.
    + destruct x, cur, b; cbn in *; congruence.
    + destruct x, cur, b; cbn in *; congruence.
    + destruct x, cur, b; cbn in *; congruence.
Qed.

Lemma next_id_returned ts v :
  max_id ts ≫= py_add1 = Returned v → is_Some (ids ts).
Proof.
  destruct ts as [|t ts]; cbn [max_id]; [by eexists|].
  unfold getitem. destruct (t !! "id") as [x|] eqn:Hx; cbn; [|done].
  destruct (max_from x ts) as [m| |] eqn:Hm; cbn; [|done..].
  unfold py_add1. destruct (as_int m) as [z|] eqn:Hz; [|done]. intros _.
  destruct (max_from_int_result _ _ _ _ Hm Hz) as [[xi Hxi] [zs Hzs]].
  exists (xi :: zs). apply ids_cons_Some. exists xi, zs.
  split_and!; try done. unfold int_id. by rewrite Hx.
Qed.

(** The three ways a mutating call ends: an exception before anything
    changed, the not-found line alone, or an assignment to the task list
    followed by a save and the success line. *)
Lemma run_mutation_ends e c st :
  (∃ ex, run_mutation e c st = (Raised ex, st) ∧
         (ex = KeyError "id" ∨ (is_add c ∧ ex = TypeError))) ∨
  (∃ n, target c = Some n ∧
        run_mutation e c st = (Returned (), out_line (not_found_line n) st)) ∨
  (∃ ts, run_mutation e c st =
           (_save_tasks e;; print (success_line c)) (put_tasks ts st)).
Proof.
  destruct c as [title description|n|n]; cbn [run_mutation].
  - rewrite add_task_unfold.
    destruct (next_id_cases (tasks (self st))) as [[v ->]|[->| ->]].
    + right. right. by eexists.
    + left. eexists. split; [done|]. by left.
    + left. eexists. split; [done|]. by right.
  - destruct (first_match_cases n (tasks (self st)))
      as [Hall|(pre & t & post & Hts & Hpre & [Ht|Ht])].
    + rewrite (complete_task_absent _ _ _ Hall). right. left. by exists n.
    + rewrite (complete_task_found _ _ _ _ _ _ Hts Hpre Ht).
      right. right. by eexists.
    + rewrite (complete_task_key_error _ _ _ _ _ _ Hts Hpre Ht).
      left. eexists. split; [done|]. by left.
  - destruct (decide (Forall carries_id (tasks (self st)))) as [Hcar|Hcar].
    + destruct (carries_id_split n _ Hcar) as [Hall|Hex].
      * rewrite (delete_task_absent _ _ _ Hall). right. left. by exists n.
      * rewrite (delete_task_run _ _ _ Hcar).
        rewrite bool_decide_eq_true_2 by by apply filter_other_id_shorter.
        right. right. by eexists.
    + rewrite (delete_task_key_error _ _ _ Hcar).
      left. eexists. split; [done|]. by left.
Qed.

(** X1. [add_task] raises with the task list still as it was exactly when
    some task of the store lacks an integer id (a missing id, a string,
    [null]).  On a store of integer ids the new task is appended before
    anything else can go wrong, so a call that ends in an exception while
    the list is unchanged stopped at the computation of the id. *)
Theorem add_task_raises_before_append_iff e title description st :
  (∃ ex st', add_task e title description st = (Raised ex, st') ∧
             tasks (self st') = tasks (self st)) ↔
  ids (tasks (self st)) = None.
Proof.
  split.
  - intros (ex & st' & Hrun & Hsame).
    destruct (ids (tasks (self st))) as [zs|] eqn:Hids; [|done].
    pose proof (add_task_tasks e title description st zs Hids) as Happ.
    rewrite Hrun in Happ. cbn [snd] in Happ. rewrite Hsame in Happ.
    apply (f_equal length) in Happ. rewrite length_app in Happ.
    cbn [length] in Happ. lia.
  - intros Hnone. rewrite add_task_unfold.
    destruct (next_id_cases (tasks (self st))) as [[v Hv]|[Hr|Hr]].
    + apply next_id_returned in Hv as [zs Hzs]. congruence.
    + rewrite Hr. eauto.
    + rewrite Hr. eauto.
Qed.

(** X2. [delete_task] raises exactly when some task of the store has no
    ["id"] key, wherever that task stands and whichever id is asked for. *)
Theorem delete_task_raises_iff e n st :
  (∃ ex, fst (delete_task e n st) = Raised ex) ↔
  ¬ Forall carries_id (tasks (self st)).
Proof.
  split.
  - intros [ex Hex] Hcar. rewrite (delete_task_run _ _ _ Hcar) in Hex.
    case_bool_decide; [|done]. rewrite save_then_print in Hex.
    by destruct (write_error e) as [[??]|].
  - intros Hcar. rewrite (delete_task_key_error _ _ _ Hcar). eauto.
Qed.

(** X3. [complete_task] raises exactly when its scan meets a task without an
    ["id"] key before it meets a task with the id asked for. *)
Theorem complete_task_raises_iff e n st :
  (∃ ex, fst (complete_task e n st) = Raised ex) ↔
  ∃ pre t post, tasks (self st) = pre ++ t :: post ∧
                Forall (other_id n) pre ∧ ¬ carries_id t.
Proof.
  split.
  - intros [ex Hex].
    destruct (first_match_cases n (tasks (self st)))
      as [Hall|(pre & t & post & Hts & Hpre & [Ht|Ht])].
    + by rewrite (complete_task_absent _ _ _ Hall) in Hex.
    + rewrite (complete_task_found _ _ _ _ _ _ Hts Hpre Ht) in Hex.
      rewrite save_then_print in Hex. by destruct (write_error e) as [[??]|].
    + by exists pre, t, post.
  - intros (pre & t & post & Hts & Hpre & Ht).
    rewrite (complete_task_key_error _ _ _ _ _ _ Hts Hpre Ht). eauto.
Qed.


(** X5. When the file cannot be written, every mutating call that reaches its
    save leaves the process with status 1: [add_task] on a store of
    integer ids, [complete_task] and [delete_task] on a store that holds
    the id. *)
Theorem failed_save_exits e title description n st zs msg remains :
  write_error e = Some (msg, remains) →
  ids (tasks (self st)) = Some zs → n ∈ zs →
  fst (add_task e title description st) = Exited 1 ∧
  fst (complete_task e n st) = Exited 1 ∧
  fst (delete_task e n st) = Exited 1.
Proof.
  intros Hw Hids Hin.
  pose proof (ids_carries _ _ Hids) as Hcar.
  pose proof (ids_elem_same _ _ _ Hids Hin) as Hex.
  split_and!.
  - rewrite (add_task_run _ _ _ _ _ Hids), save_then_print. by rewrite Hw.
  - destruct (first_match_cases n (tasks (self st)))
      as [Hall|(pre & t & post & Hts & Hpre & [Ht|Ht])].
    + apply Exists_exists in Hex as (t & Hel & Hsame).
      rewrite Forall_forall in Hall. destruct (same_other_id n t); auto.
    + rewrite (complete_task_found _ _ _ _ _ _ Hts Hpre Ht), save_then_print.
      by rewrite Hw.
    + destruct Ht. rewrite Hts in Hcar.
      by apply Forall_app in Hcar as [_ [??]%Forall_cons].
  - rewrite (delete_task_run _ _ _ Hcar).
    rewrite bool_decide_eq_true_2 by by apply filter_other_id_shorter.
    rewrite save_then_print. by rewrite Hw.
Qed.

(** X6. A mutating call leaves the process only through a failed save: the
    status is 1, the write failed, one diagnostic that carries the text of
    the error went to standard error, nothing went to standard output, and
    the object already holds the changed list. *)
Theorem exit_means_failed_save e c st k :
  fst (run_mutation e c st) = Exited k →
  k = 1 ∧
  ∃ msg remains,
    write_error e = Some (msg, remains) ∧
    stderr (os (snd (run_mutation e c st))) =
      stderr (os st) ++ ["Error saving tasks: " +:+ msg] ∧
    stdout (os (snd (run_mutation e c st))) = stdout (os st) ∧
    fs (os (snd (run_mutation e c st))) =
      partial_alter (λ _, remains) (tasks_file (self st)) (fs (os st)).
Proof.
  intros Hrun.
  destruct (run_mutation_ends e c st)
    as [(ex0 & Hr & Hex)|[(n & _ & Hr)|(ts & Hr)]];
    rewrite Hr in *; [done..|].
  rewrite save_then_print in *.
  destruct (write_error e) as [[msg remains]|]; [|done].
  cbn in Hrun. inversion Hrun. split; [done|]. by exists msg, remains.
Qed.

(** X7. A mutating call that returns has printed exactly one line on standard
    output, the success line of the call or the not-found line of its id,
    and nothing on standard error. *)
Theorem returned_mutation_prints_one_line e c st :
  fst (run_mutation e c st) = Returned () →
  stderr (os (snd (run_mutation e c st))) = stderr (os st) ∧
  ∃ line,
    stdout (os (snd (run_mutation e c st))) = stdout (os st) ++ [line] ∧
    (line = success_line c ∨
     ∃ n, target c = Some n ∧ line = not_found_line n).
Proof.
  intros Hrun.
  destruct (run_mutation_ends e c st)
    as [(ex0 & Hr & Hex)|[(n & Hn & Hr)|(ts & Hr)]];
    rewrite Hr in *; [done| |].
  - split; [done|]. exists (not_found_line n). split; [done|]. right. eauto.
  - rewrite save_then_print in *.
    destruct (write_error e) as [[msg remains]|]; [done|].
    split; [done|]. exists (success_line c). split; [done|]. by left.
Qed.

(** X8. Whenever a mutating call returns with a task list other than the one
    it started from, the file at the path of the object holds the dump of
    the whole new list. *)
Theorem changed_list_is_saved e c st :
  fst (run_mutation e c st) = Returned () →
  tasks (self (snd (run_mutation e c st))) ≠ tasks (self st) →
  fs (os (snd (run_mutation e c st))) !! tasks_file (self st) =
    Some (json_dump (tasks (self (snd (run_mutation e c st))))).
Proof.
  intros Hrun Hne.
  destruct (run_mutation_ends e c st)
    as [(ex0 & Hr & Hex)|[(n & Hn & Hr)|(ts & Hr)]];
    rewrite Hr in *; [done..|].
  rewrite save_then_print in *.
  destruct (write_error e) as [[msg remains]|]; [done|].
  cbn. by rewrite lookup_partial_alter_eq.
Qed.

(** ** Calls one after the other *)

Lemma filter_other_id_others n ts : Forall (other_id n) (filter (other_id n) ts).
Proof. apply Forall_forall. by intros u [? _]%list_elem_of_filter. Qed.

Lemma ids_absent_others n ts zs :
  ids ts = Some zs → n ∉ zs → Forall (other_id n) ts.
Proof.
  revert zs. induction ts as [|t ts IH]; intros zs; [constructor|].
  intros (z & zs' & Hz & Hzs & ->)%ids_cons_Some Hnot.
  apply not_elem_of_cons in Hnot as [Hne Hnot]. constructor.
  - apply (int_id_other n _ _ Hz). congruence.
  - by eapply IH.
Qed.

Lemma same_id_new_task z title description created_at :
  same_id z (new_task (VInt z) title description created_at).
Proof.
  unfold same_id. rewrite (int_id_id_is z _ z); [by rewrite Z.eqb_refl|].
  apply int_id_new_task.
Qed.

Lemma Forall2_marked_refl ts : Forall2 marked ts ts.
Proof. apply Forall_Forall2_diag, Forall_forall. intros t _. by left. Qed.

(** X9. In a store where a task without an id stands after the first task
    with id [n], [complete_task n] does its work (the scan stops at the
    match) while [delete_task n], whose comprehension visits every task,
    raises [KeyError] and changes nothing. *)
Theorem complete_succeeds_where_delete_raises e n pre t post st :
  tasks (self st) = pre ++ t :: post →
  Forall (other_id n) pre → same_id n t → ¬ Forall carries_id post →
  write_error e = None →
  fst (complete_task e n st) = Returned () ∧
  tasks (self (snd (complete_task e n st))) =
    pre ++ <[ "completed" := VBool true ]> t :: post ∧
  delete_task e n st = (Raised (KeyError "id"), st).
Proof.
  intros Hts Hpre Ht Hpost Hw. split_and!.
  - rewrite (complete_task_found _ _ _ _ _ _ Hts Hpre Ht), save_then_print.
    by rewrite Hw.
  - by apply complete_task_tasks_found.
  - apply delete_task_key_error. rewrite Hts. intros Hcar.
    apply Hpost. by apply Forall_app in Hcar as [_ [_ ?]%Forall_cons].
Qed.

(** X10. After [delete_task n] on a store whose tasks all carry an id, however
    the deletion ended, the id [n] is gone: [complete_task n] and a second
    [delete_task n] both return after the not-found line and change
    nothing else. *)
Theorem deleted_id_is_not_found e1 e2 n st :
  Forall carries_id (tasks (self st)) →
  let st1 := snd (delete_task e1 n st) in
  complete_task e2 n st1 = (Returned (), out_line (not_found_line n) st1) ∧
  delete_task e2 n st1 = (Returned (), out_line (not_found_line n) st1).
Proof.
  intros Hcar st1.
  assert (Forall (other_id n) (tasks (self st1))) as Hall.
  { unfold st1. rewrite (delete_task_tasks _ _ _ Hcar).
    apply filter_other_id_others. }
  split; [by apply complete_task_absent|by apply delete_task_absent].
Qed.

(** X11. [add_task] followed by [delete_task] of the id just assigned gives
    back the task list the two calls started from, and the file holds its
    dump (writes succeeding). *)
Theorem add_then_delete_restores e1 e2 title description st zs :
  ids (tasks (self st)) = Some zs →
  write_error e1 = None → write_error e2 = None →
  let r := (add_task e1 title description;;
            delete_task e2 (max_default 0 zs + 1)) st in
  fst r = Returned () ∧
  tasks (self (snd r)) = tasks (self st) ∧
  fs (os (snd r)) !! tasks_file (self st) =
    Some (json_dump (tasks (self st))).
Proof.
  intros Hids Hw1 Hw2. cbv zeta. unfold mbind, M_bind.
  rewrite (add_task_run _ _ _ _ _ Hids), save_then_print, Hw1.
  set (new := new_task _ _ _ _).
  assert (filter (other_id (max_default 0 zs + 1)) (tasks (self st) ++ [new])
          = tasks (self st)) as Hfilter.
  { rewrite filter_app, filter_other_id_all
      by (eapply ids_absent_others; [done|apply next_id_fresh]).
    rewrite filter_cons_False; [by rewrite filter_nil, app_nil_r|].
    intros Ho. eapply same_other_id; [|exact Ho]. apply same_id_new_task. }
  rewrite delete_task_run; cbn [out_line put_file put_tasks self tasks os].
  - rewrite Hfilter.
    rewrite bool_decide_eq_true_2 by (rewrite length_app; cbn; lia).
    rewrite save_then_print, Hw2. cbn.
    split_and!; [done..|]. by rewrite lookup_partial_alter_eq.
  - apply Forall_app. split; [by eapply ids_carries|].
    constructor; [|done]. eapply same_id_carries, same_id_new_task.
Qed.

(** X12. Ids come back.  In a store of integer ids whose maximum [m] is
    positive, [delete_task m] followed by [add_task] gives the new task an
    id that is at most [m]; it is [m] again when [m - 1] is in the
    store. *)
Theorem deleted_maximum_comes_back e1 e2 title description st zs m :
  ids (tasks (self st)) = Some zs →
  m ∈ zs → Forall (λ z, z ≤ m) zs → 1 ≤ m → write_error e1 = None →
  let k := max_default 0 (filter (λ z, z ≠ m) zs) + 1 in
  tasks (self (snd ((delete_task e1 m;; add_task e2 title description) st))) =
    filter (other_id m) (tasks (self st)) ++
      [new_task (VInt k) title description (now_isoformat e2)] ∧
  k ≤ m ∧ (m - 1 ∈ zs → k = m).
Proof.
  intros Hids Hin Hle Hpos Hw k. split_and!.
  - unfold mbind at 1, M_bind at 1.
    rewrite (delete_task_run _ _ _ (ids_carries _ _ Hids)).
    rewrite bool_decide_eq_true_2
      by (apply filter_other_id_shorter; by eapply ids_elem_same).
    rewrite save_then_print, Hw. cbv beta iota.
    rewrite (add_task_tasks _ _ _ _ (filter (λ z, z ≠ m) zs)); [done|].
    by apply ids_filter.
  - unfold k. destruct (filter (λ z, z ≠ m) zs) as [|z rest] eqn:Hrest.
    + cbn. lia.
    + assert (max_default 0 (z :: rest) ∈ filter (λ z, z ≠ m) zs) as Hmax
        by (rewrite Hrest; by apply max_default_elem).
      apply list_elem_of_filter in Hmax as [Hne Hmax].
      rewrite Forall_forall in Hle. specialize (Hle _ Hmax). lia.
  - intros Hprev. unfold k. rewrite (max_default_pin 0 _ (m - 1)); [lia| |].
    + apply list_elem_of_filter. split; [lia|done].
    + apply Forall_forall. intros z [Hne Hz]%list_elem_of_filter.
      rewrite Forall_forall in Hle. specialize (Hle _ Hz). lia.
Qed.

(** X13. What a mutating call can do to the task list, however it ends: the
    tasks that remain are tasks of the old list, in their old order, each
    as it was or marked completed; [add_task] can append one task after
    them, and no other task ever appears.  No call edits the id, title,
    description or creation time of a task, reorders tasks or takes a
    completion mark away. *)
Theorem tasks_history e c st :
  ∃ kept olds news,
    kept `sublist_of` tasks (self st) ∧
    Forall2 marked kept olds ∧
    tasks (self (snd (run_mutation e c st))) = olds ++ news ∧
    (news = [] ∨
     ∃ v title description,
       c = Add title description ∧
       news = [new_task v title description (now_isoformat e)]).
Proof.
  assert (∀ line ts,
    tasks (self (snd ((_save_tasks e;; print line) (put_tasks ts st)))) = ts)
    as Hsaved by (intros; by rewrite save_then_print_self).
  destruct c as [title description|n|n]; cbn [run_mutation].
  - rewrite add_task_unfold.
    destruct (max_id (tasks (self st)) ≫= py_add1) as [v|ex|k].
    + exists (tasks (self st)), (tasks (self st)),
        [new_task v title description (now_isoformat e)].
      rewrite Hsaved. split_and!; [done|apply Forall2_marked_refl|done|].
      right. by exists v, title, description.
    + exists (tasks (self st)), (tasks (self st)), []. rewrite app_nil_r.
      split_and!; [done|apply Forall2_marked_refl|done|by left].
    + exists (tasks (self st)), (tasks (self st)), []. rewrite app_nil_r.
      split_and!; [done|apply Forall2_marked_refl|done|by left].
  - destruct (first_match_cases n (tasks (self st)))
      as [Hall|(pre & t & post & Hts & Hpre & [Ht|Ht])].
    + rewrite (complete_task_absent _ _ _ Hall).
      exists (tasks (self st)), (tasks (self st)), []. rewrite app_nil_r.
      split_and!; [done|apply Forall2_marked_refl|done|by left].
    + rewrite (complete_task_tasks_found _ _ _ _ _ _ Hts Hpre Ht).
      exists (tasks (self st)),
        (pre ++ <[ "completed" := VBool true ]> t :: post), [].
      rewrite app_nil_r. split_and!; [done| |done|by left].
      rewrite Hts. apply Forall2_app; [apply Forall2_marked_refl|].
      constructor; [by right|apply Forall2_marked_refl].
    + rewrite (complete_task_key_error _ _ _ _ _ _ Hts Hpre Ht).
      exists (tasks (self st)), (tasks (self st)), []. rewrite app_nil_r.
      split_and!; [done|apply Forall2_marked_refl|done|by left].
  - destruct (decide (Forall carries_id (tasks (self st)))) as [Hcar|Hcar].
    + rewrite (delete_task_tasks _ _ _ Hcar).
      exists (filter (other_id n) (tasks (self st))),
        (filter (other_id n) (tasks (self st))), [].
      rewrite app_nil_r.
      split_and!; [apply sublist_filter|apply Forall2_marked_refl|done|by left].
    + rewrite (delete_task_key_error _ _ _ Hcar).
      exists (tasks (self st)), (tasks (self st)), []. rewrite app_nil_r.
      split_and!; [done|apply Forall2_marked_refl|done|by left].
Qed.

(** ** Listing after a change, and listing a malformed store *)

Lemma incomplete_marked t :
  incomplete (<[ "completed" := VBool true ]> t) = false.
Proof. by rewrite (incomplete_flag _ true) by by rewrite lookup_insert_eq. Qed.


(** X14. Once [complete_task n] has marked a task, the default listing selects
    the incomplete tasks before it and after it and no longer the task
    itself, while the listing of all tasks still holds it, marked. *)
Theorem completed_task_leaves_default_listing e n pre t post st :
  tasks (self st) = pre ++ t :: post →
  Forall (other_id n) pre → same_id n t →
  let ts' := tasks (self (snd (complete_task e n st))) in
  tasks_to_show false ts' =
    tasks_to_show false pre ++ tasks_to_show false post ∧
  tasks_to_show true ts' =
    pre ++ <[ "completed" := VBool true ]> t :: post.
Proof.
  intros Hts Hpre Ht ts'. unfold ts'.
  rewrite (complete_task_tasks_found _ _ _ _ _ _ Hts Hpre Ht).
  split; [|done]. unfold tasks_to_show. cbn [negb].
  rewrite filter_app, filter_cons_False; [done|].
  by rewrite incomplete_marked.
Qed.


Lemma show_task_key_error t st :
  ¬ listable t →
  show_task t st =
    (Raised (KeyError (if decide (carries_id t) then "title" else "id")), st).
Proof.
  intros Hbad. unfold show_task, getitem, carries_id.
  destruct (t !! "id") as [i|] eqn:Hi.
  - rewrite decide_True by by eexists.
    destruct (t !! "title") as [ti|] eqn:Hti; [|done].
    destruct Hbad. split; by eexists.
  - rewrite decide_False; [done|]. by intros [??].
Qed.

Lemma for_each_show_task_stops pre t post st :
  Forall listable pre → ¬ listable t →
  for_each (pre ++ t :: post) show_task st =
    (Raised (KeyError (if decide (carries_id t) then "title" else "id")),
     out_lines (concat (task_lines <$> pre)) st).
Proof.
  revert st. induction pre as [|u pre IH]; intros st Hpre Hbad.
  - cbn [app for_each fmap list_fmap concat]. unfold mbind, M_bind.
    rewrite (show_task_key_error _ _ Hbad). by rewrite out_lines_nil.
  - apply Forall_cons in Hpre as [Hu Hpre].
    cbn [app for_each fmap list_fmap concat]. unfold mbind at 1, M_bind at 1.
    rewrite (show_task_lines _ _ Hu), (IH _ Hpre Hbad).
    by rewrite out_lines_app.
Qed.

(** Where the first task that cannot be shown stands. *)
Lemma first_unlistable (ts : list task) :
  Forall listable ts ∨
  ∃ pre t post, ts = pre ++ t :: post ∧ Forall listable pre ∧ ¬ listable t.
Proof.
  induction ts as [|u ts IH]; [by left|].
  destruct (decide (listable u)) as [Hu|Hu].
  - destruct IH as [Hall|(pre & t & post & -> & Hpre & Ht)].
    + left. by constructor.
    + right. exists (u :: pre), t, post. split_and!; [done|by constructor|done].
  - right. exists [], u, ts. split_and!; [done|constructor|done].
Qed.

Lemma list_tasks_shown show_completed st u shown :
  tasks_to_show show_completed (tasks (self st)) = u :: shown →
  list_tasks show_completed st =
    (for_each (u :: shown) show_task;; print (str_mul "-" 60))
      (out_lines [list_header; str_mul "-" 60] st).
Proof.
  intros Hshown. unfold list_tasks.
  unfold mbind at 1, M_bind at 1, gets at 1. cbn beta iota.
  destruct (tasks (self st)) as [|t0 ts0] eqn:Hts.
  - unfold tasks_to_show in Hshown. by destruct show_completed.
  - cbn iota. rewrite Hshown.
    unfold mbind at 1, M_bind at 1, print at 1.
    unfold mbind at 1, M_bind at 1, print at 1.
    by rewrite !out_line_lines, out_lines_app.
Qed.

(** X16. A listing stops at the first selected task that lacks an id or a
    title: the header, the rule and the lines of the tasks before it are
    already printed, the closing rule is not, and the call raises
    [KeyError] on ["id"] when the id is missing and on ["title"]
    otherwise. *)
Theorem list_tasks_stops_at_malformed_task show_completed st pre t post :
  tasks_to_show show_completed (tasks (self st)) = pre ++ t :: post →
  Forall listable pre → ¬ listable t →
  list_tasks show_completed st =
    (Raised (KeyError (if decide (carries_id t) then "title" else "id")),
     out_lines
       ([list_header; str_mul "-" 60] ++ concat (task_lines <$> pre)) st).
Proof.
  intros Hshown Hpre Hbad.
  destruct (pre ++ t :: post) as [|u shown] eqn:Happ;
    [by destruct pre|].
  rewrite (list_tasks_shown _ _ _ _ Hshown). rewrite <- Happ.
  unfold mbind, M_bind.
  rewrite (for_each_show_task_stops _ _ _ _ Hpre Hbad).
  by rewrite out_lines_app.
Qed.

(** X17. [KeyError] and the selection of [list_tasks].  When a selected
    task lacks an id or a title the call does not return: it ends in an
    exception.  When every selected task has both, the call does not end
    in [KeyError]; tasks that are filtered out (a completed task without a
    title under the default listing) do not matter.  A [KeyError] of the
    call is on ["id"] or on ["title"]. *)
Theorem list_tasks_key_error show_completed st :
  let shown := tasks_to_show show_completed (tasks (self st)) in
  (¬ Forall listable shown →
   ∃ ex, fst (list_tasks show_completed st) = Raised ex) ∧
  (Forall listable shown →
   ∀ key, fst (list_tasks show_completed st) ≠ Raised (KeyError key)) ∧
  (∀ key, fst (list_tasks show_completed st) = Raised (KeyError key) →
          key = "id" ∨ key = "title").
Proof.
  intros shown.
  assert (Forall listable shown →
          ∀ ex, fst (list_tasks show_completed st) ≠ Raised ex) as Hfine.
  { intros Hall ex Hex. unfold shown in Hall.
    destruct (tasks_to_show show_completed (tasks (self st)))
      as [|u rest] eqn:Hshown.
    - unfold list_tasks, mbind, M_bind, gets in Hex. rewrite Hshown in Hex.
      by destruct (tasks (self st)).
    - rewrite (list_tasks_shown _ _ _ _ Hshown) in Hex.
      unfold mbind, M_bind in Hex.
      by rewrite (for_each_show_task _ _ Hall) in Hex. }
  assert (¬ Forall listable shown →
          ∃ key, fst (list_tasks show_completed st) = Raised (KeyError key) ∧
                 (key = "id" ∨ key = "title")) as Hstop.
  { intros Hnot.
    destruct (first_unlistable shown)
      as [Hall|(pre & t & post & Hshown & Hpre & Hbad)]; [done|].
    unfold shown in Hshown.
    destruct (pre ++ t :: post) as [|u rest] eqn:Happ; [by destruct pre|].
    rewrite (list_tasks_shown _ _ _ _ Hshown). rewrite <- Happ.
    unfold mbind, M_bind.
    rewrite (for_each_show_task_stops _ _ _ _ Hpre Hbad). cbn [fst].
    eexists. split; [done|]. destruct (decide (carries_id t)); auto. }
  split_and!.
  - intros Hnot. destruct (Hstop Hnot) as (key & Hkey & _). eauto.
  - intros Hall key. apply Hfine, Hall.
  - intros key Hkey.
    destruct (decide (Forall listable shown)) as [Hall|Hnot].
    + by destruct (Hfine Hall (KeyError key)).
    + destruct (Hstop Hnot) as (key' & Hkey' & Hwhich).
      rewrite Hkey in Hkey'. by inversion Hkey'; subst.
Qed.

(** ** Construction *)

Lemma init_stdout e path o : stdout (snd (__init__ e path o)) = stdout o.
Proof.
  destruct (fs o !! path) as [c|] eqn:Hfile.
  - destruct (read_error e) as [msg|] eqn:Hr.
    + by rewrite (init_read_error _ _ _ c msg).
    + rewrite (init_json_load _ _ _ c) by done.
      by destruct (json_load c) as [ts|[]|k].
  - by rewrite init_absent.
Qed.

Lemma init_returned e path o app o1 :
  __init__ e path o = (Returned app, o1) → tasks_file app = path.
Proof.
  unfold __init__. destruct (_load_tasks e _) as [[ts|ex|k] st1]; [|done..].
  by intros [= <- _].
Qed.

(** X18. Construction writes no file and prints nothing on standard output;
    the object it returns carries the path it was given; and standard
    error either stays as it was or receives one line, the load
    diagnostic, which only happens over an existing file and always comes
    with an empty task list. *)
Theorem construction_effects e path o :
  let r := __init__ e path o in
  fs (snd r) = fs o ∧ stdout (snd r) = stdout o ∧
  (∀ app, fst r = Returned app → tasks_file app = path) ∧
  (stderr (snd r) = stderr o ∨
   ∃ msg,
     is_Some (fs o !! path) ∧
     fst r = Returned {| tasks_file := path; tasks := [] |} ∧
     stderr (snd r) = stderr o ++ ["Error loading tasks: " +:+ msg]).
Proof.
  intros r. split_and!.
  - apply init_fs.
  - apply init_stdout.
  - intros app Hret. unfold r in Hret.
    destruct (__init__ e path o) as [r1 o1] eqn:Hinit. cbn in Hret. subst r1.
    by eapply init_returned.
  - unfold r. destruct (fs o !! path) as [c|] eqn:Hfile.
    + destruct (read_error e) as [msg|] eqn:Hr.
      * rewrite (init_read_error _ _ _ c msg) by done. right. exists msg. eauto.
      * rewrite (init_json_load _ _ _ c) by done.
        destruct (json_load c) as [ts|[key| |msg|msg|msg]|k];
          [by left|by left|by left| | |by left|by left];
          right; exists msg; eauto.
    + rewrite init_absent by done. by left.
Qed.

(** ** The command line front end *)

Lemma handle_command_cases e help args :
  (∃ c, args_command args ∈ [Some "add"; Some "complete"; Some "delete"] ∧
        handle_command e help args = run_mutation e c) ∨
  (args_command args = Some "list" ∧
   handle_command e help args = list_tasks (args_all args)) ∨
  ((args_command args ∉
      [Some "add"; Some "list"; Some "complete"; Some "delete"]) ∧
   handle_command e help args = print help).
Proof.
  unfold handle_command.
  destruct (decide (args_command args = Some "add")) as [Ha|Ha].
  { left. exists (Add (args_title args) (args_description args)).
    rewrite Ha. split; [|done]. by left. }
  destruct (decide (args_command args = Some "list")) as [Hl|Hl].
  { right. by left. }
  destruct (decide (args_command args = Some "complete")) as [Hc|Hc].
  { left. exists (Complete (args_id args)). rewrite Hc. split; [|done].
    right. by left. }
  destruct (decide (args_command args = Some "delete")) as [Hd|Hd].
  { left. exists (Delete (args_id args)). rewrite Hd. split; [|done].
    right. right. by left. }
  right. right. split; [|done].
  rewrite !not_elem_of_cons. split_and!; try done. apply not_elem_of_nil.
Qed.

(** The files a command leaves behind differ from the files it found at
    most at the path of the object. *)
Lemma handle_command_frame e help args st path' :
  path' ≠ tasks_file (self st) →
  fs (os (snd (handle_command e help args st))) !! path' =
    fs (os st) !! path'.
Proof.
  intros Hne.
  destruct (handle_command_cases e help args)
    as [(c & _ & ->)|[[_ ->]|[_ ->]]]; [| |done].
  - destruct (run_mutation_ends e c st)
      as [(ex0 & -> & _)|[(n & _ & ->)|(ts & ->)]]; [done..|].
    rewrite save_then_print.
    destruct (write_error e) as [[msg remains]|]; cbn;
      by rewrite lookup_partial_alter_ne.
  - by destruct (list_tasks_reads_only (args_all args) st) as (_ & -> & _).
Qed.

(** X19. The process as a whole touches no file but the one [--tasks-file]
    names, whatever the command and however the process ends. *)
Theorem other_files_untouched e help args o path' :
  path' ≠ args_tasks_file args →
  fs (snd (main e help args o)) !! path' = fs o !! path'.
Proof.
  intros Hne. unfold main.
  pose proof (init_fs e (args_tasks_file args) o) as Hfs.
  destruct (__init__ e (args_tasks_file args) o) as [[app|ex|k] o1] eqn:Hinit;
    cbn [fst snd] in *; [|by rewrite Hfs..].
  apply init_returned in Hinit.
  rewrite handle_command_frame by (cbn; congruence). cbn. by rewrite Hfs.
Qed.

(** X20. A command line whose command is none of [add], [complete] and
    [delete] (so [list], or no command at all) leaves every file as it
    was. *)
Theorem main_read_only_commands e help args o :
  args_command args ∉ [Some "add"; Some "complete"; Some "delete"] →
  fs (snd (main e help args o)) = fs o.
Proof.
  intros Hcmd. unfold main.
  pose proof (init_fs e (args_tasks_file args) o) as Hfs.
  destruct (__init__ e (args_tasks_file args) o) as [[app|ex|k] o1];
    cbn [fst snd] in *; [|done..].
  destruct (handle_command_cases e help args)
    as [(c & Hin & _)|[[_ ->]|[_ ->]]]; [done| |done].
  by destruct (list_tasks_reads_only (args_all args)
                 {| self := app; os := o1 |}) as (_ & -> & _).
Qed.

(** X21. Without a command (or with one the chain does not know), [main]
    still constructs the object, so a load diagnostic can reach standard
    error, and then writes the help text on standard output and returns;
    no file changes. *)
Theorem main_without_command e help args o app o1 :
  args_command args ∉
    [Some "add"; Some "list"; Some "complete"; Some "delete"] →
  __init__ e (args_tasks_file args) o = (Returned app, o1) →
  main e help args o =
    (Returned (),
     {| fs := fs o; stdout := stdout o ++ [help]; stderr := stderr o1 |}).
Proof.
  intros Hcmd Hinit. unfold main.
  pose proof (init_fs e (args_tasks_file args) o) as Hfs.
  pose proof (init_stdout e (args_tasks_file args) o) as Hout.
  rewrite Hinit in *. cbn [snd] in *.
  destruct (handle_command_cases e help args)
    as [(c & Hin & _)|[[Hl _]|[_ ->]]].
  - destruct Hcmd. rewrite !elem_of_cons in *. tauto.
  - destruct Hcmd. rewrite Hl. right. by left.
  - cbn. by rewrite Hfs, Hout.
Qed.

(** X22. An exception of the read that is neither [JSONDecodeError] nor
    [IOError] is not caught: construction raises it, and [main] ends with
    it before any command is handled, with nothing printed and no file
    changed. *)
Theorem uncaught_load_exception e help args o c ex :
  fs o !! args_tasks_file args = Some c → read_error e = None →
  json_load c = Raised ex →
  (∀ msg, ex ≠ JSONDecodeError msg) → (∀ msg, ex ≠ IOError msg) →
  __init__ e (args_tasks_file args) o = (Raised ex, o) ∧
  main e help args o = (Raised ex, o).
Proof.
  intros Hfile Hr Hbad Hjson Hio.
  assert (__init__ e (args_tasks_file args) o = (Raised ex, o)) as Hinit.
  { rewrite (init_json_load _ _ _ c) by done. rewrite Hbad.
    destruct ex as [key| |msg|msg|msg]; try done.
    - by destruct (Hjson msg).
    - by destruct (Hio msg). }
  split; [done|]. unfold main. by rewrite Hinit.
Qed.

(** X23. [add] over a file that does not load: the load fails (the read raises
    [IOError], or [json.load] rejects the text), construction goes on
    with an empty list, and the save of [add_task] replaces whatever the
    file held by a list of one task, the new one with id 1. *)
Theorem add_after_failed_load_overwrites e help args o c msg :
  args_command args = Some "add" →
  fs o !! args_tasks_file args = Some c →
  read_error e = Some msg ∨
    (read_error e = None ∧
     (json_load c = Raised (JSONDecodeError msg) ∨
      json_load c = Raised (IOError msg))) →
  write_error e = None →
  let t := new_task (VInt 1) (args_title args) (args_description args)
             (now_isoformat e) in
  main e help args o =
    (Returned (),
     {| fs := <[ args_tasks_file args := json_dump [t] ]> (fs o);
        stdout := stdout o ++ ["✓ Task added: " +:+ args_title args];
        stderr := stderr o ++ ["Error loading tasks: " +:+ msg] |}).
Proof.
  intros Hcmd Hfile Hload Hw t.
  assert (__init__ e (args_tasks_file args) o =
    (Returned {| tasks_file := args_tasks_file args; tasks := [] |},
     {| fs := fs o; stdout := stdout o;
        stderr := stderr o ++ ["Error loading tasks: " +:+ msg] |}))
    as Hinit.
  { destruct Hload as [Hr|[Hr [Hbad|Hbad]]].
    - by apply (init_read_error _ _ _ c).
    - rewrite (init_json_load _ _ _ c) by done. by rewrite Hbad.
    - rewrite (init_json_load _ _ _ c) by done. by rewrite Hbad. }
  unfold main. rewrite Hinit. unfold handle_command.
  rewrite decide_True by done.
  rewrite (add_task_run _ _ _ _ []) by done.
  rewrite save_then_print, Hw. done.
Qed.


(** X25. On a path where no file exists: [list] prints the no-tasks line,
    [complete] and [delete] print the not-found line of their id, and none
    of the three creates the file; [add] creates it, holding one task with
    id 1.  Nothing goes to standard error. *)
Theorem main_on_missing_file e help args o :
  fs o !! args_tasks_file args = None →
  let say line :=
    (Returned (),
     {| fs := fs o; stdout := stdout o ++ [line]; stderr := stderr o |}) in
  (args_command args = Some "list" →
   main e help args o = say "No tasks found.") ∧
  (args_command args = Some "complete" ∨ args_command args = Some "delete" →
   main e help args o = say (not_found_line (args_id args))) ∧
  (args_command args = Some "add" → write_error e = None →
   main e help args o =
     (Returned (),
      {| fs := <[ args_tasks_file args :=
                    json_dump [new_task (VInt 1) (args_title args)
                                 (args_description args) (now_isoformat e)] ]>
                 (fs o);
         stdout := stdout o ++ ["✓ Task added: " +:+ args_title args];
         stderr := stderr o |})).
Proof.
  intros Hfile say. unfold main. rewrite init_absent by done.
  unfold handle_command. split_and!.
  - intros Hcmd. rewrite Hcmd.
    rewrite decide_False by done. by rewrite decide_True by done.
  - intros [Hcmd|Hcmd]; rewrite Hcmd.
    + rewrite !decide_False by done. by rewrite decide_True by done.
    + rewrite !decide_False by done. rewrite decide_True by done.
      by rewrite delete_task_absent by constructor.
  - intros Hcmd Hw. rewrite decide_True by done.
    rewrite (add_task_run _ _ _ _ []) by done.
    by rewrite save_then_print, Hw.
Qed.

(** ** One process per command *)

Lemma blind_ret {A} (a : A) : stderr_blind (mret a).
Proof. by intros st st' H. Qed.

Lemma blind_lift {A} (o : outcome A) : stderr_blind (lift o).
Proof. by intros st st' H. Qed.

Lemma blind_gets {A} (f : state → A) :
  (∀ st st', same_but_stderr st st' → f st = f st') → stderr_blind (gets f).
Proof.
  intros Hf st st' H. unfold gets. cbn. split; [|done]. by rewrite (Hf _ _ H).
Qed.

Lemma blind_bind {A B} (m : M A) (f : A → M B) :
  stderr_blind m → (∀ a, stderr_blind (f a)) → stderr_blind (m ≫= f).
Proof.
  intros Hm Hf st st' H. unfold mbind, M_bind.
  destruct (Hm st st' H) as [Hfst Hsnd].
  destruct (m st) as [[a|ex|k] s1], (m st') as [[a'|ex'|k'] s1'];
    cbn [fst snd] in *; try done; inversion Hfst; subst; try (by split).
  by apply Hf.
Qed.

Lemma blind_print line : stderr_blind (print line).
Proof.
  intros st st' (Hs & Hf & Ho). unfold print, out_line, same_but_stderr. cbn.
  split_and!; congruence.
Qed.

Lemma blind_eprint line : stderr_blind (eprint line).
Proof.
  intros st st' (Hs & Hf & Ho). unfold eprint, err_line, same_but_stderr. cbn.
  split_and!; congruence.
Qed.

Lemma blind_set_tasks ts : stderr_blind (set_tasks ts).
Proof.
  intros st st' (Hs & Hf & Ho).
  unfold set_tasks, put_tasks, same_but_stderr. cbn.
  split_and!; congruence.
Qed.

Lemma blind_set_file path c : stderr_blind (set_file path c).
Proof.
  intros st st' (Hs & Hf & Ho).
  unfold set_file, put_file, same_but_stderr. cbn.
  split_and!; congruence.
Qed.

Lemma blind_try_except {A} (body : M A) handler :
  stderr_blind body →
  (∀ ex h, handler ex = Some h → stderr_blind h) →
  stderr_blind (try_except body handler).
Proof.
  intros Hbody Hh st st' H. unfold try_except.
  destruct (Hbody st st' H) as [Hfst Hsnd].
  destruct (body st) as [[a|ex|k] s1], (body st') as [[a'|ex'|k'] s1'];
    cbn [fst snd] in *; try done; inversion Hfst; subst; try (by split).
  destruct (handler ex') as [h|] eqn:Hhandler; [|done].
  by apply (Hh ex').
Qed.

Lemma blind_for_each {A} (xs : list A) (body : A → M unit) :
  (∀ x, stderr_blind (body x)) → stderr_blind (for_each xs body).
Proof.
  intros Hbody. induction xs as [|x xs IH]; cbn [for_each].
  - apply blind_ret.
  - apply blind_bind; [apply Hbody|]. by intros _.
Qed.

Lemma blind_tasks : stderr_blind (gets (λ st, tasks (self st))).
Proof. apply blind_gets. by intros st st' (-> & _). Qed.

Lemma blind_save e : stderr_blind (_save_tasks e).
Proof.
  unfold _save_tasks. apply blind_try_except.
  - unfold write_json.
    apply blind_bind; [apply blind_gets; by intros st st' (-> & _)|].
    intros path. apply blind_bind; [apply blind_tasks|]. intros ts.
    destruct (write_error e) as [[msg remains]|]; [|apply blind_set_file].
    apply blind_bind; [apply blind_set_file|]. intros _. apply blind_lift.
  - intros ex h Hh. destruct ex; try done. inversion Hh; subst.
    apply blind_bind; [apply blind_eprint|]. intros _. apply blind_lift.
Qed.

Lemma blind_save_then_print e line : stderr_blind (_save_tasks e;; print line).
Proof. apply blind_bind; [apply blind_save|]. intros _. apply blind_print. Qed.

Lemma blind_add_task e title description :
  stderr_blind (add_task e title description).
Proof.
  unfold add_task.
  apply blind_bind; [apply blind_tasks|]. intros ts.
  apply blind_bind; [apply blind_lift|]. intros m.
  apply blind_bind; [apply blind_lift|]. intros next_id. cbv zeta.
  apply blind_bind; [apply blind_set_tasks|]. intros _.
  apply blind_save_then_print.
Qed.

Lemma blind_show_task t : stderr_blind (show_task t).
Proof.
  unfold show_task.
  apply blind_bind; [apply blind_lift|]. intros i.
  apply blind_bind; [apply blind_lift|]. intros ti.
  apply blind_bind; [apply blind_print|]. intros _.
  destruct (truthy _); [|apply blind_ret].
  apply blind_bind; [apply blind_lift|]. intros d. apply blind_print.
Qed.

Lemma blind_list_tasks show_completed : stderr_blind (list_tasks show_completed).
Proof.
  unfold list_tasks.
  apply blind_bind; [apply blind_tasks|]. intros ts.
  destruct ts as [|t ts]; [apply blind_print|].
  destruct (tasks_to_show _ _) as [|u shown]; [apply blind_print|].
  apply blind_bind; [apply blind_print|]. intros _.
  apply blind_bind; [apply blind_print|]. intros _.
  apply blind_bind; [|intros _; apply blind_print].
  apply blind_for_each. apply blind_show_task.
Qed.

Lemma blind_complete_scan e n rest : ∀ i, stderr_blind (complete_scan e n i rest).
Proof.
  induction rest as [|t rest IH]; intros i; cbn [complete_scan].
  - apply blind_print.
  - apply blind_bind; [apply blind_lift|]. intros found.
    destruct found; [|apply IH].
    apply blind_bind; [apply blind_tasks|]. intros ts.
    apply blind_bind; [apply blind_set_tasks|]. intros _.
    apply blind_save_then_print.
Qed.

Lemma blind_complete_task e n : stderr_blind (complete_task e n).
Proof.
  unfold complete_task.
  apply blind_bind; [apply blind_tasks|]. intros ts.
  apply blind_complete_scan.
Qed.

Lemma blind_delete_task e n : stderr_blind (delete_task e n).
Proof.
  unfold delete_task.
  apply blind_bind; [apply blind_tasks|]. intros ts. cbv zeta.
  apply blind_bind; [apply blind_lift|]. intros ts'.
  apply blind_bind; [apply blind_set_tasks|]. intros _.
  destruct (bool_decide _); [apply blind_save_then_print|apply blind_print].
Qed.

Lemma blind_handle_command e help args :
  stderr_blind (handle_command e help args).
Proof.
  unfold handle_command.
  repeat destruct (decide _);
    auto using blind_add_task, blind_list_tasks, blind_complete_task,
      blind_delete_task, blind_print.
Qed.

Lemma synced_same_store st st' : same_store st st' → synced st → synced st'.
Proof.
  intros (Hs & Hf & _) Hsync e Hr. rewrite Hs.
  rewrite (init_fst_ext e e _ _ (os st)); [by apply Hsync|done|by rewrite Hf].
Qed.

Lemma handle_command_synced e help args st :
  (∀ ts, json_load (json_dump ts) = Returned ts) →
  synced st → fst (handle_command e help args st) = Returned () →
  synced (snd (handle_command e help args st)) ∧
  tasks_file (self (snd (handle_command e help args st))) =
    tasks_file (self st).
Proof.
  intros Hcodec Hsync.
  destruct (handle_command_cases e help args)
    as [(c & _ & ->)|[[_ ->]|[_ ->]]].
  - intros Hret. apply run_mutation_synced; [done..|].
    intros k. by rewrite Hret.
  - intros _.
    pose proof (list_tasks_reads_only (args_all args) st) as Hsame.
    split; [by eapply synced_same_store|].
    by destruct Hsame as (-> & _).
  - intros _. split; [by apply synced_out_line|done].
Qed.

Lemma script_simulation help script : ∀ st o,
  (∀ ts, json_load (json_dump ts) = Returned ts) →
  Forall (λ ea, read_error ea.1 = None ∧
                args_tasks_file ea.2 = tasks_file (self st)) script →
  synced st → fs o = fs (os st) → stdout o = stdout (os st) →
  fst (run_script help script o) = fst (run_commands help script st) ∧
  fs (snd (run_script help script o)) =
    fs (os (snd (run_commands help script st))) ∧
  stdout (snd (run_script help script o)) =
    stdout (os (snd (run_commands help script st))).
Proof.
  induction script as [|[e args] script IH];
    intros st o Hcodec Hall Hsync Hfs Hout; [done|].
  apply Forall_cons in Hall as [[Hr Hpath] Hall]. cbn [fst snd] in Hr, Hpath.
  unfold run_commands. cbn [run_script for_each].
  fold (run_commands help script). unfold main. rewrite Hpath.
  pose proof (Hsync e Hr) as Hload.
  rewrite (init_fst_ext e e _ (os st) o) in Hload by (by rewrite ?Hfs).
  pose proof (init_fs e (tasks_file (self st)) o) as Hfs1.
  pose proof (init_stdout e (tasks_file (self st)) o) as Hout1.
  destruct (__init__ e (tasks_file (self st)) o) as [r o1].
  cbn [fst snd] in *. subst r.
  assert (same_but_stderr st {| self := self st; os := o1 |}) as Hsame.
  { unfold same_but_stderr. cbn. split_and!; congruence. }
  destruct (blind_handle_command e help args _ _ Hsame)
    as [Hfst (Hs & Hf & Ho)].
  pose proof (handle_command_synced e help args st Hcodec Hsync) as Hstep.
  unfold mbind, M_bind. cbn [fst snd].
  destruct (handle_command e help args st) as [[[]|ex|k] st1],
    (handle_command e help args {| self := self st; os := o1 |})
    as [r2 st2]; cbn [fst snd] in *; subst r2.
  - destruct Hstep as [Hsync1 Hpath1]; [done|].
    apply IH; [done| |done|congruence|congruence].
    eapply Forall_impl; [exact Hall|]. intros ea [??]. split; congruence.
  - cbn. split_and!; congruence.
  - cbn. split_and!; congruence.
Qed.

(** X26. A script that runs one process per command does what a single object
    does when the same commands are handled on it one after the other:
    the two runs end the same way, leave the same files and print the
    same lines on standard output.  This holds for a codec that reads
    back what it writes, commands that all name the file of the object,
    reads that work, and an object that holds what its file gives. *)
Theorem script_as_one_object help script st :
  (∀ ts, json_load (json_dump ts) = Returned ts) →
  Forall (λ ea, read_error ea.1 = None ∧
                args_tasks_file ea.2 = tasks_file (self st)) script →
  synced st →
  fst (run_script help script (os st)) = fst (run_commands help script st) ∧
  fs (snd (run_script help script (os st))) =
    fs (os (snd (run_commands help script st))) ∧
  stdout (snd (run_script help script (os st))) =
    stdout (os (snd (run_commands help script st))).
Proof.
  intros Hcodec Hall Hsync. by apply script_simulation.
Qed.

End TodoApp.

(** ** The theorems at work on the test fixture *)

Lemma add_task_assigns_max_plus_one_witness :
  ids three_tasks = Some [1; 2; 3] ∧
  tasks (self _
    (snd (add_task _ sample_dump (quiet_env _ "2024-05-02T08:00:00.000000")
            "Water plants" ""
            (store _ "tasks.json" three_tasks (no_files _))))) =
    three_tasks ++
      [new_task (VInt 4) "Water plants" "" "2024-05-02T08:00:00.000000"].
Proof.
  assert (ids three_tasks = Some [1; 2; 3]) as Hids by reflexivity.
  split; [exact Hids|].
  destruct (add_task_assigns_max_plus_one _ sample_dump
              (quiet_env _ "2024-05-02T08:00:00.000000") "Water plants" ""
              (store _ "tasks.json" three_tasks (no_files _)) _ Hids)
    as (_ & Happend & _).
  exact Happend.
Defined.

Lemma distinct_ids_invariant_witness :
  distinct_ids three_tasks ∧
  distinct_ids
    (tasks (self _
       (snd (run_mutation _ sample_dump
               (quiet_env _ "2024-05-02T08:00:00.000000") (Delete 2)
               (store _ "tasks.json" three_tasks (no_files _)))))).
Proof.
  assert (ids three_tasks = Some [1; 2; 3]) as Hids by reflexivity.
  assert (distinct_ids three_tasks) as Hdist.
  { exists [1; 2; 3]. split; [exact Hids|].
    apply (bool_decide_unpack _). reflexivity. }
  split; [exact Hdist|].
  destruct (distinct_ids_invariant _ sample_dump
              (quiet_env _ "2024-05-02T08:00:00.000000") (Delete 2)
              [(quiet_env _ "2024-05-02T08:00:00.000000", Add "a" "")]
              (store _ "tasks.json" three_tasks (no_files _)) [1; 2; 3]
              Hdist Hids) as [Hkeep _].
  - repeat constructor.
  - exact Hkeep.
Defined.

Lemma not_found_leaves_store_witness :
  Forall (other_id (-1)) three_tasks ∧
  delete_task _ sample_dump
    {| now_isoformat := "2024-05-02T08:00:00.000000";
       read_error := None;
       write_error := Some ("No space left on device", None) |}
    (-1) (store _ "tasks.json" three_tasks (no_files _)) =
    (Returned (),
     out_line _ "Task -1 not found."
       (store _ "tasks.json" three_tasks (no_files _))).
Proof.
  assert (Forall (other_id (-1)) three_tasks) as Hall
    by (repeat constructor).
  split; [exact Hall|].
  destruct (not_found_leaves_store _ sample_dump
              {| now_isoformat := "2024-05-02T08:00:00.000000";
                 read_error := None;
                 write_error := Some ("No space left on device", None) |}
              (-1) (store _ "tasks.json" three_tasks (no_files _)) Hall)
    as (_ & Hdelete & _).
  exact Hdelete.
Defined.

Lemma complete_task_idempotent_witness :
  same_id 1 groceries ∧
  fst (complete_task _ sample_dump (quiet_env _ "2024-05-02T08:00:01.000000") 1
         (snd (complete_task _ sample_dump
                 (quiet_env _ "2024-05-02T08:00:00.000000") 1
                 (store _ "tasks.json" three_tasks (no_files _))))) =
    Returned ().
Proof.
  assert (same_id 1 groceries) as Hsame by reflexivity.
  split; [exact Hsame|].
  destruct (complete_task_idempotent _ sample_dump
              (quiet_env _ "2024-05-02T08:00:00.000000")
              (quiet_env _ "2024-05-02T08:00:01.000000")
              1 [] groceries [project; review]
              (store _ "tasks.json" three_tasks (no_files _))
              eq_refl (Forall_nil_2 _) Hsame eq_refl eq_refl)
    as (_ & Hsecond & _).
  exact Hsecond.
Defined.

Lemma mutations_frame_witness :
  same_id 2 project ∧
  tasks (self _
    (snd (delete_task _ sample_dump (quiet_env _ "2024-05-02T08:00:00.000000")
            2 (store _ "tasks.json" three_tasks (no_files _))))) =
    [groceries; review].
Proof.
  assert (same_id 2 project) as Hsame by reflexivity.
  assert (Forall (other_id 2) [groceries]) as Hpre by (repeat constructor).
  assert (Forall carries_id [review]) as Hpost.
  { repeat constructor. by eexists. }
  split; [exact Hsame|].
  destruct (mutations_frame _ sample_dump
              (quiet_env _ "2024-05-02T08:00:00.000000") 2
              [groceries] project [review]
              (store _ "tasks.json" three_tasks (no_files _))
              eq_refl Hpre Hsame) as [_ Hdelete].
  destruct (Hdelete Hpost) as (_ & Hkept & _).
  exact Hkept.
Defined.

Lemma duplicate_ids_asymmetry_witness :
  (same_id 1 groceries ∧ same_id 1 twin) ∧
  tasks (self _
    (snd (complete_task _ sample_dump
            (quiet_env _ "2024-05-02T08:00:00.000000") 1
            (store _ "tasks.json" twin_tasks (no_files _))))) =
    [done_groceries; project; twin] ∧
  tasks (self _
    (snd (delete_task _ sample_dump
            (quiet_env _ "2024-05-02T08:00:00.000000") 1
            (store _ "tasks.json" twin_tasks (no_files _))))) =
    [project].
Proof.
  assert (same_id 1 groceries) as Hfirst by reflexivity.
  assert (same_id 1 twin) as Hsecond by reflexivity.
  assert (Forall carries_id [project]) as Hmid.
  { repeat constructor. by eexists. }
  split; [by split|].
  destruct (duplicate_ids_asymmetry _ sample_dump
              (quiet_env _ "2024-05-02T08:00:00.000000") 1
              [] groceries [project] twin []
              (store _ "tasks.json" twin_tasks (no_files _))
              eq_refl (Forall_nil_2 _) Hfirst Hsecond Hmid (Forall_nil_2 _))
    as (Hcomplete & Hdelete & _).
  split; [exact Hcomplete|exact Hdelete].
Defined.

Lemma list_tasks_selection_witness :
  tasks_to_show false [done_groceries; project] = [project] ∧
  list_tasks (option (list task)) false
    (store _ "tasks.json" [done_groceries; project] (no_files _)) =
    (Returned (),
     out_lines _
       [list_header; str_mul "-" 60; "○ [2] Complete project";
        str_mul "-" 60]
       (store _ "tasks.json" [done_groceries; project] (no_files _))).
Proof.
  assert (tasks_to_show false [done_groceries; project] = [project])
    as Hshown by reflexivity.
  split; [exact Hshown|].
  destruct (list_tasks_selection (option (list task)) false
              (store _ "tasks.json" [done_groceries; project] (no_files _)))
    as (_ & _ & _ & _ & Hprint).
  apply Hprint.
  - discriminate.
  - cbn [store self tasks]. rewrite Hshown. discriminate.
  - cbn [store self tasks]. rewrite Hshown.
    repeat constructor; by eexists.
Defined.



Lemma round_trip_witness :
  let e := quiet_env (option (list task)) "2024-05-02T08:00:00.000000" in
  let st :=
    snd (run_mutations _ sample_dump
           [(e, Add "Buy groceries" "Milk, eggs, bread");
            (e, Add "Complete project" "");
            (e, Complete 1);
            (e, Delete 2)]
           (store _ "tasks.json" [] (no_files _))) in
  (∀ ts, sample_load (sample_dump ts) = Returned ts) ∧
  ∃ app' o2,
    __init__ _ sample_load e "tasks.json" (os _ st) = (Returned app', o2) ∧
    tasks_file app' = "tasks.json" ∧ tasks app' = tasks (self _ st).
Proof.
  intros e st.
  assert (∀ ts, sample_load (sample_dump ts) = Returned ts) as Hcodec
    by reflexivity.
  split; [exact Hcodec|].
  apply (round_trip _ sample_dump sample_load e "tasks.json" (no_files _)
           {| tasks_file := "tasks.json"; tasks := [] |} (no_files _)
           [(e, Add "Buy groceries" "Milk, eggs, bread");
            (e, Add "Complete project" "");
            (e, Complete 1);
            (e, Delete 2)] e Hcodec).
  - reflexivity.
  - reflexivity.
  - intros k. vm_compute. discriminate.
  - reflexivity.
Defined.

(** The scenario of the specification: two tasks are added to an empty
    store, the first is completed, the listing of incomplete tasks shows
    the second alone, the second is deleted, and a store constructed anew
    from the same path holds the first task, completed. *)
Example scenario_reload :
  let e := quiet_env (option (list task)) "2024-05-02T08:00:00.000000" in
  let run :=
    (add_task _ sample_dump e "Buy groceries" "Milk, eggs, bread";;
     add_task _ sample_dump e "Complete project" "";;
     complete_task _ sample_dump e 1;;
     list_tasks _ false;;
     delete_task _ sample_dump e 2)
      (store _ "tasks.json" [] (no_files _)) in
  fst run = Returned () ∧
  stdout _ (os _ (snd run)) =
    ["✓ Task added: Buy groceries"; "✓ Task added: Complete project";
     "✓ Task 1 marked as completed.";
     list_header; str_mul "-" 60; "○ [2] Complete project"; str_mul "-" 60;
     "✓ Task 2 deleted."] ∧
  fst (__init__ _ sample_load e "tasks.json" (os _ (snd run))) =
    Returned
      {| tasks_file := "tasks.json";
         tasks :=
           [<[ "completed" := VBool true ]>
              (new_task (VInt 1) "Buy groceries" "Milk, eggs, bread"
                 "2024-05-02T08:00:00.000000")] |}.
Proof. vm_compute. split_and!; reflexivity. Qed.

(** ** Further properties at work *)


Lemma list_tasks_key_error_witness :
  let bad := store (option (list task)) "tasks.json"
               [groceries; untitled; review] (no_files _) in
  let good := store (option (list task)) "tasks.json" three_tasks
                (no_files _) in
  (¬ Forall listable [groceries; untitled; review] ∧
   Forall listable three_tasks) ∧
  (∃ ex, fst (list_tasks _ true bad) = Raised ex) ∧
  (∀ key, fst (list_tasks _ true good) ≠ Raised (KeyError key)).
Proof.
  intros bad good.
  assert (¬ Forall listable [groceries; untitled; review]) as Hbad.
  { intros Hall. apply Forall_cons in Hall as [_ Hall].
    apply Forall_cons in Hall as [[_ [v Hv]] _]. vm_compute in Hv.
    discriminate Hv. }
  assert (Forall listable three_tasks) as Hgood.
  { repeat constructor; by eexists. }
  split; [by split|].
  destruct (list_tasks_key_error _ true bad) as (Hraises & _ & _).
  destruct (list_tasks_key_error _ true good) as (_ & Hfine & _).
  split; [exact (Hraises Hbad)|exact (Hfine Hgood)].
Defined.

Lemma failed_save_exits_witness :
  let e := {| now_isoformat := "2024-05-02T08:00:00.000000";
              read_error := None;
              write_error := Some ("No space left on device", None) |} in
  let st := store (option (list task)) "tasks.json" three_tasks (no_files _) in
  (ids three_tasks = Some [1; 2; 3] ∧ 2 ∈ [1; 2; 3]) ∧
  fst (add_task _ sample_dump e "Water plants" "" st) = Exited 1 ∧
  fst (complete_task _ sample_dump e 2 st) = Exited 1 ∧
  fst (delete_task _ sample_dump e 2 st) = Exited 1.
Proof.
  intros e st.
  assert (ids three_tasks = Some [1; 2; 3]) as Hids by reflexivity.
  assert (2 ∈ [1; 2; 3]) as Hin by (right; left).
  split; [by split|].
  exact (failed_save_exits _ sample_dump e "Water plants" "" 2 st [1; 2; 3]
           "No space left on device" None eq_refl Hids Hin).
Defined.

Lemma exit_means_failed_save_witness :
  let e := {| now_isoformat := "2024-05-02T08:00:00.000000";
              read_error := None;
              write_error := Some ("No space left on device", None) |} in
  let st := store (option (list task)) "tasks.json" three_tasks (no_files _) in
  let r := run_mutation _ sample_dump e (Add "Water plants" "") st in
  fst r = Exited 1 ∧
  ∃ msg remains,
    write_error _ e = Some (msg, remains) ∧
    stderr _ (os _ (snd r)) =
      stderr _ (os _ st) ++ ["Error saving tasks: " +:+ msg] ∧
    stdout _ (os _ (snd r)) = stdout _ (os _ st) ∧
    fs _ (os _ (snd r)) =
      partial_alter (λ _, remains) (tasks_file (self _ st)) (fs _ (os _ st)).
Proof.
  intros e st r.
  assert (fst r = Exited 1) as Hexit by reflexivity.
  split; [exact Hexit|].
  destruct (exit_means_failed_save _ sample_dump e (Add "Water plants" "")
              st 1 Hexit) as [_ Hfault].
  exact Hfault.
Defined.

Lemma returned_mutation_prints_one_line_witness :
  let e := quiet_env (option (list task)) "2024-05-02T08:00:00.000000" in
  let st := store (option (list task)) "tasks.json" three_tasks (no_files _) in
  let r := run_mutation _ sample_dump e (Complete 5) st in
  fst r = Returned () ∧ stderr _ (os _ (snd r)) = stderr _ (os _ st).
Proof.
  intros e st r.
  assert (fst r = Returned ()) as Hret by reflexivity.
  split; [exact Hret|].
  destruct (returned_mutation_prints_one_line _ sample_dump e (Complete 5)
              st Hret) as [Herr _].
  exact Herr.
Defined.

Lemma changed_list_is_saved_witness :
  let e := quiet_env (option (list task)) "2024-05-02T08:00:00.000000" in
  let st := store (option (list task)) "tasks.json" three_tasks (no_files _) in
  let r := run_mutation _ sample_dump e (Delete 2) st in
  (fst r = Returned () ∧ tasks (self _ (snd r)) ≠ tasks (self _ st)) ∧
  fs _ (os _ (snd r)) !! "tasks.json" = Some (Some (tasks (self _ (snd r)))).
Proof.
  intros e st r.
  assert (fst r = Returned ()) as Hret by reflexivity.
  assert (tasks (self _ (snd r)) ≠ tasks (self _ st)) as Hne.
  { intros Heq. apply (f_equal length) in Heq. vm_compute in Heq.
    discriminate Heq. }
  split; [by split|].
  exact (changed_list_is_saved _ sample_dump e (Delete 2) st Hret Hne).
Defined.

Lemma complete_succeeds_where_delete_raises_witness :
  let e := quiet_env (option (list task)) "2024-05-02T08:00:00.000000" in
  let st := store (option (list task)) "tasks.json"
              [groceries; project; nameless] (no_files _) in
  (same_id 1 groceries ∧ ¬ Forall carries_id [project; nameless]) ∧
  fst (complete_task _ sample_dump e 1 st) = Returned () ∧
  tasks (self _ (snd (complete_task _ sample_dump e 1 st))) =
    [done_groceries; project; nameless] ∧
  delete_task _ sample_dump e 1 st = (Raised (KeyError "id"), st).
Proof.
  intros e st.
  assert (same_id 1 groceries) as Hsame by reflexivity.
  assert (¬ Forall carries_id [project; nameless]) as Hpost.
  { intros Hall. apply Forall_cons in Hall as [_ Hall].
    apply Forall_cons in Hall as [[v Hv] _]. vm_compute in Hv.
    discriminate Hv. }
  split; [by split|].
  exact (complete_succeeds_where_delete_raises _ sample_dump e 1 []
           groceries [project; nameless] st eq_refl (Forall_nil_2 _) Hsame
           Hpost eq_refl).
Defined.

Lemma deleted_id_is_not_found_witness :
  let e := quiet_env (option (list task)) "2024-05-02T08:00:00.000000" in
  let st := store (option (list task)) "tasks.json" three_tasks (no_files _) in
  let st1 := snd (delete_task _ sample_dump e 2 st) in
  Forall carries_id three_tasks ∧
  complete_task _ sample_dump e 2 st1 =
    (Returned (), out_line _ "Task 2 not found." st1) ∧
  delete_task _ sample_dump e 2 st1 =
    (Returned (), out_line _ "Task 2 not found." st1).
Proof.
  intros e st st1.
  assert (Forall carries_id three_tasks) as Hcar.
  { repeat constructor; by eexists. }
  split; [exact Hcar|].
  exact (deleted_id_is_not_found _ sample_dump e e 2 st Hcar).
Defined.

Lemma add_then_delete_restores_witness :
  let e := quiet_env (option (list task)) "2024-05-02T08:00:00.000000" in
  let st := store (option (list task)) "tasks.json" three_tasks (no_files _) in
  let r := (add_task _ sample_dump e "Water plants" "";;
            delete_task _ sample_dump e 4) st in
  ids three_tasks = Some [1; 2; 3] ∧
  fst r = Returned () ∧
  tasks (self _ (snd r)) = three_tasks ∧
  fs _ (os _ (snd r)) !! "tasks.json" = Some (Some three_tasks).
Proof.
  intros e st r.
  assert (ids three_tasks = Some [1; 2; 3]) as Hids by reflexivity.
  split; [exact Hids|].
  exact (add_then_delete_restores _ sample_dump e e "Water plants" "" st
           [1; 2; 3] Hids eq_refl eq_refl).
Defined.

Lemma deleted_maximum_comes_back_witness :
  let e := quiet_env (option (list task)) "2024-05-02T08:00:00.000000" in
  let st := store (option (list task)) "tasks.json" three_tasks (no_files _) in
  (ids three_tasks = Some [1; 2; 3] ∧ 3 ∈ [1; 2; 3] ∧
   Forall (λ z, z ≤ 3) [1; 2; 3]) ∧
  tasks (self _
    (snd ((delete_task _ sample_dump e 3;;
           add_task _ sample_dump e "Water plants" "") st))) =
    [groceries; project;
     new_task (VInt 3) "Water plants" "" "2024-05-02T08:00:00.000000"].
Proof.
  intros e st.
  assert (ids three_tasks = Some [1; 2; 3]) as Hids by reflexivity.
  assert (3 ∈ [1; 2; 3]) as Hin by (right; right; left).
  assert (Forall (λ z, z ≤ 3) [1; 2; 3]) as Hle.
  { repeat (apply Forall_cons_2; [lia|]). apply Forall_nil_2. }
  split; [by split_and!|].
  destruct (deleted_maximum_comes_back _ sample_dump e e "Water plants" ""
              st [1; 2; 3] 3 Hids Hin Hle) as (Htasks & _ & _);
    [lia|reflexivity|].
  exact Htasks.
Defined.

Lemma completed_task_leaves_default_listing_witness :
  let e := quiet_env (option (list task)) "2024-05-02T08:00:00.000000" in
  let st := store (option (list task)) "tasks.json" three_tasks (no_files _) in
  same_id 2 project ∧
  tasks_to_show false
    (tasks (self _ (snd (complete_task _ sample_dump e 2 st)))) =
    [groceries; review].
Proof.
  intros e st.
  assert (same_id 2 project) as Hsame by reflexivity.
  assert (Forall (other_id 2) [groceries]) as Hpre by (repeat constructor).
  split; [exact Hsame|].
  destruct (completed_task_leaves_default_listing _ sample_dump e 2
              [groceries] project [review] st eq_refl Hpre Hsame)
    as [Hdefault _].
  exact Hdefault.
Defined.


Lemma list_tasks_stops_at_malformed_task_witness :
  let st := store (option (list task)) "tasks.json"
              [groceries; untitled; review] (no_files _) in
  (Forall listable [groceries] ∧ ¬ listable untitled) ∧
  list_tasks _ false st =
    (Raised (KeyError "title"),
     out_lines _
       [list_header; str_mul "-" 60; "○ [1] Buy groceries";
        "    └─ Milk, eggs, bread"] st).
Proof.
  intros st.
  assert (Forall listable [groceries]) as Hpre.
  { repeat constructor; by eexists. }
  assert (¬ listable untitled) as Hbad.
  { intros [_ [v Hv]]. vm_compute in Hv. discriminate Hv. }
  split; [by split|].
  exact (list_tasks_stops_at_malformed_task _ false st [groceries] untitled
           [review] eq_refl Hpre Hbad).
Defined.

Lemma other_files_untouched_witness :
  let e := quiet_env (option (list task)) "2024-05-02T08:00:00.000000" in
  let args := {| args_tasks_file := "tasks.json"; args_command := Some "add";
                 args_title := "Water plants"; args_description := "";
                 args_all := false; args_id := 0 |} in
  let o := {| fs := {[ "notes.json" := Some [project] ]};
              stdout := []; stderr := [] |} in
  "notes.json" ≠ "tasks.json" ∧
  fs _ (snd (main _ sample_dump sample_load e "usage: todo.py" args o))
    !! "notes.json" = Some (Some [project]).
Proof.
  intros e args o.
  assert ("notes.json" ≠ "tasks.json") as Hne by discriminate.
  split; [exact Hne|].
  exact (other_files_untouched _ sample_dump sample_load e "usage: todo.py"
           args o "notes.json" Hne).
Defined.

Lemma main_read_only_commands_witness :
  let e := quiet_env (option (list task)) "2024-05-02T08:00:00.000000" in
  let args := {| args_tasks_file := "tasks.json"; args_command := Some "list";
                 args_title := ""; args_description := "";
                 args_all := true; args_id := 0 |} in
  let o := {| fs := {[ "tasks.json" := Some three_tasks ]};
              stdout := []; stderr := [] |} in
  (Some "list" ∉ [Some "add"; Some "complete"; Some "delete"]) ∧
  fs _ (snd (main _ sample_dump sample_load e "usage: todo.py" args o)) =
    {[ "tasks.json" := Some three_tasks ]}.
Proof.
  intros e args o.
  assert (Some "list" ∉ [Some "add"; Some "complete"; Some "delete"])
    as Hcmd.
  { rewrite !not_elem_of_cons. split_and!; try discriminate.
    apply not_elem_of_nil. }
  split; [exact Hcmd|].
  exact (main_read_only_commands _ sample_dump sample_load e "usage: todo.py"
           args o Hcmd).
Defined.

Lemma main_without_command_witness :
  let e := quiet_env (option (list task)) "2024-05-02T08:00:00.000000" in
  let args := {| args_tasks_file := "tasks.json"; args_command := None;
                 args_title := ""; args_description := "";
                 args_all := false; args_id := 0 |} in
  (None ∉ [Some "add"; Some "list"; Some "complete"; Some "delete"]) ∧
  main _ sample_dump sample_load e "usage: todo.py" args (no_files _) =
    (Returned (),
     {| fs := ∅; stdout := ["usage: todo.py"]; stderr := [] |}).
Proof.
  intros e args.
  assert (None ∉ [Some "add"; Some "list"; Some "complete"; Some "delete"])
    as Hcmd.
  { rewrite !not_elem_of_cons. split_and!; try discriminate.
    apply not_elem_of_nil. }
  split; [exact Hcmd|].
  exact (main_without_command _ sample_dump sample_load e "usage: todo.py"
           args (no_files _) {| tasks_file := "tasks.json"; tasks := [] |}
           (no_files _) Hcmd eq_refl).
Defined.

Lemma uncaught_load_exception_witness :
  let e := quiet_env (option (list task)) "2024-05-02T08:00:00.000000" in
  let args := {| args_tasks_file := "tasks.json"; args_command := Some "list";
                 args_title := ""; args_description := "";
                 args_all := false; args_id := 0 |} in
  let o := {| fs := {[ "tasks.json" := None ]}; stdout := []; stderr := [] |} in
  bytes_load None = Raised (OtherError "'utf-8' codec can't decode byte 0xff") ∧
  main _ sample_dump bytes_load e "usage: todo.py" args o =
    (Raised (OtherError "'utf-8' codec can't decode byte 0xff"), o).
Proof.
  intros e args o.
  split; [reflexivity|].
  destruct (uncaught_load_exception _ sample_dump bytes_load e
              "usage: todo.py" args o None
              (OtherError "'utf-8' codec can't decode byte 0xff"))
    as [_ Hmain]; [reflexivity|reflexivity|reflexivity|discriminate..|].
  exact Hmain.
Defined.

Lemma add_after_failed_load_overwrites_witness :
  let e := quiet_env (option (list task)) "2024-05-02T08:00:00.000000" in
  let args := {| args_tasks_file := "tasks.json"; args_command := Some "add";
                 args_title := "Water plants"; args_description := "";
                 args_all := false; args_id := 0 |} in
  let o := {| fs := {[ "tasks.json" := None ]}; stdout := []; stderr := [] |} in
  sample_load None =
    Raised (JSONDecodeError "Expecting value: line 1 column 1 (char 0)") ∧
  fs _ (snd (main _ sample_dump sample_load e "usage: todo.py" args o))
    !! "tasks.json" =
    Some (Some [new_task (VInt 1) "Water plants" ""
                  "2024-05-02T08:00:00.000000"]).
Proof.
  intros e args o.
  split; [reflexivity|].
  rewrite (add_after_failed_load_overwrites _ sample_dump sample_load e
             "usage: todo.py" args o None
             "Expecting value: line 1 column 1 (char 0)" eq_refl eq_refl).
  - reflexivity.
  - right. split; [reflexivity|]. left. reflexivity.
  - reflexivity.
Defined.

Lemma script_as_one_object_witness :
  let e := quiet_env (option (list task)) "2024-05-02T08:00:00.000000" in
  let st := store (option (list task)) "tasks.json" [] (no_files _) in
  let script :=
    [(e, {| args_tasks_file := "tasks.json"; args_command := Some "add";
            args_title := "Buy groceries";
            args_description := "Milk, eggs, bread";
            args_all := false; args_id := 0 |});
     (e, {| args_tasks_file := "tasks.json"; args_command := Some "complete";
            args_title := ""; args_description := "";
            args_all := false; args_id := 1 |});
     (e, {| args_tasks_file := "tasks.json"; args_command := Some "list";
            args_title := ""; args_description := "";
            args_all := true; args_id := 0 |})] in
  ((∀ ts, sample_load (sample_dump ts) = Returned ts) ∧ synced _ sample_load st) ∧
  fs _ (snd (run_script _ sample_dump sample_load "usage: todo.py" script
               (os _ st))) =
    fs _ (os _ (snd (run_commands _ sample_dump "usage: todo.py" script st))).
Proof.
  intros e st script.
  assert (∀ ts, sample_load (sample_dump ts) = Returned ts) as Hcodec
    by reflexivity.
  assert (synced _ sample_load st) as Hsync by (intros e' Hr; reflexivity).
  split; [by split|].
  destruct (script_as_one_object _ sample_dump sample_load "usage: todo.py"
              script st Hcodec) as (_ & Hfs & _).
  - repeat constructor.
  - exact Hsync.
  - exact Hfs.
Defined.


Lemma main_on_missing_file_witness :
  let e := quiet_env (option (list task)) "2024-05-02T08:00:00.000000" in
  let args := {| args_tasks_file := "tasks.json"; args_command := Some "delete";
                 args_title := ""; args_description := "";
                 args_all := false; args_id := 1 |} in
  (∅ : gmap string (option (list task))) !! "tasks.json" = None ∧
  main _ sample_dump sample_load e "usage: todo.py" args (no_files _) =
    (Returned (),
     {| fs := ∅; stdout := ["Task 1 not found."]; stderr := [] |}).
Proof.
  intros e args.
  assert ((∅ : gmap string (option (list task))) !! "tasks.json" = None)
    as Hfile by reflexivity.
  split; [exact Hfile|].
  destruct (main_on_missing_file _ sample_dump sample_load e "usage: todo.py"
              args (no_files _) Hfile) as (_ & Hfind & _).
  apply Hfind. right. reflexivity.
Defined.
